(** * PyBullet: the [Client] facade of [PyBullet/base.py]

    A shallow embedding of [pybullet.Client]: the constructor with its
    settings merge and authenticator selection, the thin REST wrappers, and
    the two-phase [upload_file].  Python dictionaries are finite maps with
    string keys, exceptions are an error type, and everything the methods do
    to the outside world (the disk, open file objects, calls handed to the
    authenticator) is threaded through an explicit [world]. *)

From stdpp Require Import gmap strings list fin_maps.

#[local] Set Warnings "-register-all".
#[local] Open Scope string_scope.
#[local] Open Scope list_scope.

(** ** Python values *)

(** The values that travel through the client: what [json.load] returns,
    what callers pass as keyword arguments, and the tuple that
    [mimetypes.guess_type] returns.  File objects are kept apart (see
    [file_arg]), so a payload never holds one. *)
Inductive value : Type :=
| VNone
| VBool (b : bool)
| VInt (z : Z)
| VStr (s : string)
| VTuple (l : list value)
| VList (l : list value)
| VDict (d : gmap string value).

(** Exceptions.  [Exception] is the bare [raise Exception(msg)] of the
    constructor; [RequestError] stands for what [send_request] signals on a
    non-2xx answer. *)
Inductive exn : Type :=
| Exception (msg : string)
| KeyError (key : string)
| TypeError
| AttributeError (attr : string)
| IOError (path : string)
| ValueError
| RequestError (status : Z) (body : string).

Inductive res (A : Type) : Type :=
| Ok (a : A)
| Raise (e : exn).
Arguments Ok {A} a.
Arguments Raise {A} e.

(** Python truth value, as tested by [if x], [not x] and [x or y]. *)
Definition truthy (v : value) : bool :=
  match v with
  | VNone => false
  | VBool b => b
  | VInt z => negb (z =? 0)%Z
  | VStr s => negb (String.eqb s "")
  | VTuple l | VList l => match l with [] => false | _ => true end
  | VDict d => negb (bool_decide (d = ∅))
  end.

(** [v == 'lit'] for a string literal. *)
Definition eq_str (v : value) (lit : string) : bool :=
  match v with
  | VStr s => String.eqb s lit
  | _ => false
  end.

(** [v[key]] for a string key: only a dictionary can answer. *)
Definition subscript (v : value) (key : string) : res value :=
  match v with
  | VDict d => match d !! key with
               | Some x => Ok x
               | None => Raise (KeyError key)
               end
  | _ => Raise TypeError
  end.

(** [target.update(other)] for a mapping [other]: every key of [other]
    replaces or extends [target].  stdpp's union keeps the left operand on a
    clash, so the argument of [update] goes on the left.  Only a dictionary
    has [update]; an operand that is not a mapping is reported as
    [TypeError] (Python would also take a sequence of key/value pairs, which
    the string-keyed dictionaries here do not cover). *)
Definition dict_update (target other : value) : res value :=
  match target with
  | VDict t => match other with
               | VDict o => Ok (VDict (o ∪ t))
               | _ => Raise TypeError
               end
  | _ => Raise (AttributeError "update")
  end.

(** ** Files and requests *)

(** An open file object: its [name] attribute (absent on in-memory
    streams), how many [read] calls it has served, and whether it has been
    closed. *)
Record stream : Type := Stream {
  s_name : option string;
  s_reads : nat;
  s_closed : bool
}.

(** The [inputfile] argument of [upload_file]: a path string, or a file
    object the caller already holds (named by its index in the world's
    table of streams). *)
Inductive file_arg : Type :=
| FromPath (path : string)
| OpenFile (h : nat).

(** Modelled from the spec: the keyword signature of
    [Authenticator.send_request], which lives in [pybullet.auth].  A field is
    [None] when the call site does not pass it; [skip_auth] defaults to
    [false]. *)
Record request : Type := Request {
  url : value;
  method : string;
  headers : option value;
  params : option value;
  data : option value;
  files : option (gmap string nat);
  skip_auth : bool
}.

(** Modelled from the spec: the two authenticator variants of
    [pybullet.auth], each built from the [auth] settings. *)
Inductive authenticator : Type :=
| BasicAuthenticator (auth_settings : value)
| OAuthAuthenticator (auth_settings : value).

Record client : Type := Client {
  settings : value;
  auth : authenticator
}.

(** [attached r h]: request [r] carries file object [h] in [files]. *)
Definition attached (r : request) (h : nat) : Prop :=
  ∃ d k, files r = Some d ∧ d !! k = Some h.

(** ** Endpoints *)

Definition BASE_URL : string := "https://api.pushbullet.com/v2".
Definition CONTACTS_URL : string := BASE_URL +:+ "/contacts".
Definition DEVICE_URL : string := BASE_URL +:+ "/devices".
Definition ME_URL : string := BASE_URL +:+ "/users/me".
Definition PUSH_URL : string := BASE_URL +:+ "/pushes".
Definition UPLOAD_URL : string := BASE_URL +:+ "/upload-request".

(** A call that passes only the url and the method. *)
Definition bare (u : string) (m : string) : request :=
  {| url := VStr u; method := m; headers := None; params := None;
     data := None; files := None; skip_auth := false |}.

Definition with_data (u : string) (m : string) (d : value) : request :=
  {| url := VStr u; method := m; headers := None; params := None;
     data := Some d; files := None; skip_auth := false |}.

(** ** The world *)

(** What the methods can reach outside themselves.  [disk] maps every
    existing path to what [json.load] makes of its contents ([None] when
    they are not JSON); [streams] is the table of file objects created so
    far, a file object being its index; [remote] is the state of the
    authenticator and of the service behind it. *)
Record env {net : Type} : Type := Env {
  disk : gmap string (option value);
  streams : list stream;
  remote : net
}.
Arguments env net : clear implicits.

(** [sent] records the calls handed to [send_request], oldest first. *)
Record world {net : Type} : Type := World {
  w_env : env net;
  sent : list request
}.
Arguments world net : clear implicits.

(** ** What the client relies on *)

(** The interface of [pybullet.auth]: the state it and the service behind it
    keep, and [self.auth.send_request], which answers with the parsed body
    or raises, and may change the environment.  Its code is not part of
    [base.py], so it stays abstract. *)
Class Authenticator : Type := {
  service_state : Type;
  send_request :
    authenticator → request → env service_state → res value * env service_state
}.

(** What the Python runtime provides: the expansion of ['~/.pybulletrc'],
    [mimetypes.guess_type] (a pair of type and encoding) and [json.dumps] on
    a keyword dictionary. *)
Class Platform : Type := {
  GLOBAL_SETTINGS_FILE : string;
  guess_type : string → option string * option string;
  json_dumps : gmap string value → string
}.

(** ** A sample service

    A stand-in for [pybullet.auth] and the service behind it, used to run
    the methods on concrete inputs.  The remote state is the number of calls
    the service will still accept; beyond that it answers 429.  Sending reads
    every attached file once.  The upload-request endpoint answers with a
    ticket, every other endpoint with an acknowledgement. *)

Definition sample_ticket : value :=
  VDict {[ "upload_url" := VStr "https://upload.example/slot";
           "data" := VDict {[ "signature" := VStr "s3" ]};
           "file_name" := VStr "a.txt" ]}.

Definition sample_ack : value := VDict {[ "ok" := VBool true ]}.

Definition mark_read (s : stream) : stream :=
  {| s_name := s_name s; s_reads := S (s_reads s); s_closed := s_closed s |}.

Definition read_all (hs : list nat) (ss : list stream) : list stream :=
  foldr (alter mark_read) ss hs.

Definition attachments (r : request) : list nat :=
  match files r with
  | Some d => (map_to_list d).*2
  | None => []
  end.

Definition sample_send (a : authenticator) (r : request) (e : env nat)
    : res value * env nat :=
  match remote e with
  | O => (Raise (RequestError 429 "quota"), e)
  | S n =>
      (Ok (if eq_str (url r) UPLOAD_URL then sample_ticket else sample_ack),
       {| disk := disk e; streams := read_all (attachments r) (streams e);
          remote := n |})
  end.

Definition sample_guess (name : string) : option string * option string :=
  if String.eqb name "a.txt" then (Some "text/plain", None) else (None, None).

Definition sample_dumps (kwargs : gmap string value) : string := "{}".

Definition rc : string := "/home/u/.pybulletrc".

#[global] Instance sample_authenticator : Authenticator :=
  {| service_state := nat; send_request := sample_send |}.

#[global] Instance sample_platform : Platform :=
  {| GLOBAL_SETTINGS_FILE := rc; guess_type := sample_guess;
     json_dumps := sample_dumps |}.

Definition sample_base : gmap string value :=
  {[ "auth" := VDict {[ "type" := VStr "basic"; "token" := VStr "A" ]};
     "x" := VInt 1 ]}.

Definition sample_override : gmap string value :=
  {[ "auth" := VDict {[ "token" := VStr "B" ]} ]}.

(** A home directory with a settings file and a file to upload. *)
Definition sample_disk : gmap string (option value) :=
  {[ rc := Some (VDict sample_base); "a.txt" := None ]}.

Definition sample_world (quota : nat) : world service_state :=
  {| w_env := {| disk := sample_disk; streams := []; remote := quota |};
     sent := [] |}.

(** The same machine without a settings file. *)
Definition bare_world : world service_state :=
  {| w_env := {| disk := {[ "a.txt" := None ]}; streams := []; remote := 1 |};
     sent := [] |}.

Definition sample_client : client :=
  {| settings := VDict sample_base;
     auth := BasicAuthenticator
               (VDict {[ "type" := VStr "basic"; "token" := VStr "A" ]}) |}.

(** A second settings file, to be named as the override, and a machine
    that has both. *)
Definition other_rc : string := "/home/u/work.json".

Definition other_settings : gmap string value :=
  {[ "auth" := VDict {[ "type" := VStr "oauth"; "client_id" := VStr "c" ]} ]}.

Definition two_file_world : world service_state :=
  {| w_env := {| disk := <[ other_rc := Some (VDict other_settings) ]> sample_disk;
                 streams := []; remote := 1 |};
     sent := [] |}.

(** The [auth] mapping of the sample settings file. *)
Definition sample_auth : gmap string value :=
  {[ "type" := VStr "basic"; "token" := VStr "A" ]}.

(** An override that says nothing about authentication. *)
Definition side_override : gmap string value := {[ "x" := VInt 2 ]}.

(** A machine whose global settings file is not JSON. *)
Definition corrupt_world : world service_state :=
  {| w_env := {| disk := {[ rc := None ]}; streams := []; remote := 1 |};
     sent := [] |}.

(** A service whose upload tickets lack the [data] field. *)
Definition terse_ticket : value :=
  VDict {[ "upload_url" := VStr "https://upload.example/slot" ]}.

Definition terse_authenticator : Authenticator :=
  {| service_state := unit;
     send_request := λ _ _ e, (Ok terse_ticket, e) |}.

Definition terse_world : world (@service_state terse_authenticator) :=
  {| w_env := {| disk := {[ "a.txt" := None ]}; streams := []; remote := tt |};
     sent := [] |}.

(** Two file objects the caller holds; only the first is to be uploaded. *)
Definition two_stream_world : world service_state :=
  {| w_env := {| disk := sample_disk;
                 streams := [{| s_name := Some "a.txt"; s_reads := 0;
                                s_closed := false |};
                             {| s_name := Some "b.txt"; s_reads := 0;
                                s_closed := false |}];
                 remote := 2 |};
     sent := [] |}.

(** An in-memory stream, which has no [name]. *)
Definition nameless_world : world service_state :=
  {| w_env := {| disk := sample_disk;
                 streams := [{| s_name := None; s_reads := 0; s_closed := false |}];
                 remote := 2 |};
     sent := [] |}.

(** ** The monad of the methods *)

Section Client.

Context {service : Authenticator} {platform : Platform}.

Definition M (A : Type) : Type :=
  world service_state → res A * world service_state.

Definition ret {A} (a : A) : M A := λ w, (Ok a, w).

Definition raise {A} (e : exn) : M A := λ w, (Raise e, w).

Definition bind {A B} (m : M A) (k : A → M B) : M B :=
  λ w, match m w with
       | (Ok a, w') => k a w'
       | (Raise e, w') => (Raise e, w')
       end.

Definition lift {A} (r : res A) : M A := λ w, (r, w).

Notation "x <- m ;; k" := (bind m (λ x, k))
  (at level 100, m at next level, right associativity).

(** [os.path.exists]. *)
Definition path_exists (p : string) : M bool :=
  λ w, (Ok (bool_decide (is_Some (disk (w_env w) !! p))), w).

Definition set_streams (ss : list stream) (w : world service_state)
    : world service_state :=
  {| w_env := {| disk := disk (w_env w); streams := ss;
                 remote := remote (w_env w) |};
     sent := sent w |}.

(** [open(path, mode)]: a new file object, or [IOError] when nothing is
    there. *)
Definition open_file (p : string) : M nat :=
  λ w, match disk (w_env w) !! p with
       | Some _ =>
           (Ok (length (streams (w_env w))),
            set_streams (streams (w_env w) ++
                         [{| s_name := Some p; s_reads := 0; s_closed := false |}]) w)
       | None => (Raise (IOError p), w)
       end.

Definition mark_closed (s : stream) : stream :=
  {| s_name := s_name s; s_reads := s_reads s; s_closed := true |}.

(** [fh.close()], as run when a [with] block is left. *)
Definition close_file (h : nat) : M unit :=
  λ w, (Ok tt, set_streams (alter mark_closed h (streams (w_env w))) w).

(** [json.load(fh)]: one [read], then the parse of what the file holds. *)
Definition json_load (h : nat) : M value :=
  λ w, let w' := set_streams (alter mark_read h (streams (w_env w))) w in
       match streams (w_env w) !! h with
       | Some s =>
           match s_name s ≫= λ p, disk (w_env w) !! p with
           | Some (Some v) => (Ok v, w')
           | _ => (Raise ValueError, w')
           end
       | None => (Raise ValueError, w)
       end.

(** [file_handle.name]. *)
Definition get_name (h : nat) : M string :=
  λ w, match streams (w_env w) !! h ≫= s_name with
       | Some n => (Ok n, w)
       | None => (Raise (AttributeError "name"), w)
       end.

(** One call of [self.auth.send_request]: the call is recorded, then the
    authenticator runs. *)
Definition call (c : client) (r : request) : M value :=
  λ w, let '(v, e) := send_request (auth c) r (w_env w) in
       (v, {| w_env := e; sent := sent w ++ [r] |}).

(** [with ... as fh: body]: [fh] is closed however [body] ends. *)
Definition with_closing {A} (fh : nat) (body : M A) : M A :=
  λ w, match body w with
       | (r, w') => (r, (close_file fh w').2)
       end.

(** ** [Client._load_config] (lines 258-267) *)

Definition _load_config (settings : value) : M value :=
  match (if truthy settings then settings else VStr GLOBAL_SETTINGS_FILE) with
  | VStr p =>
      fh <- open_file p ;;
      with_closing fh (json_load fh)
  | _ => raise TypeError
  end.

(** ** [Client.__init__] (lines 22-50) *)

(** Lines 30-42: the settings the constructor ends up with. *)
Definition merge_settings (settings_arg : value) : M value :=
  present <- path_exists GLOBAL_SETTINGS_FILE ;;
  if negb present && negb (truthy settings_arg)
  then raise (Exception "No settings given")
  else
    ex <- path_exists GLOBAL_SETTINGS_FILE ;;
    base <- (if ex then _load_config VNone else ret (VDict ∅)) ;;
    if truthy settings_arg then
      override <- (match settings_arg with
                   | VStr _ => _load_config settings_arg
                   | _ => ret settings_arg
                   end) ;;
      lift (dict_update base override)
    else ret base.

(** Lines 44-50: the authenticator named by [auth.type]. *)
Definition select_auth (merged : value) : M client :=
  auth_settings <- lift (subscript merged "auth") ;;
  ty <- lift (subscript auth_settings "type") ;;
  if eq_str ty "basic" then
    ret {| settings := merged; auth := BasicAuthenticator auth_settings |}
  else if eq_str ty "oauth" then
    ret {| settings := merged; auth := OAuthAuthenticator auth_settings |}
  else
    raise (Exception "Invalid authentication scheme given. Must be basic or oauth").

Definition Client_init (settings_arg : value) : M client :=
  merged <- merge_settings settings_arg ;;
  select_auth merged.

(** ** Devices (lines 52-93) *)

Definition devices (self : client) : M value :=
  resp <- call self (bare DEVICE_URL "GET") ;;
  lift (subscript resp "devices").

Definition create_device (self : client) (name device_type : value) : M value :=
  resp <- call self (with_data DEVICE_URL "POST"
                       (VDict {[ "type" := device_type; "nickname" := name ]})) ;;
  ret resp.

Definition update_device (self : client) (device_iden : string)
    (kwargs : gmap string value) : M value :=
  call self (with_data (DEVICE_URL +:+ "/" +:+ device_iden) "POST" (VDict kwargs)).

Definition delete_device (self : client) (device_iden : string) : M value :=
  _ <- call self (bare (DEVICE_URL +:+ "/" +:+ device_iden) "DELETE") ;;
  ret VNone.

(** ** Pushes (lines 95-165) *)

Definition push (self : client) (push_type : value)
    (kwargs : gmap string value) : M value :=
  let kwargs := <[ "type" := push_type ]> kwargs in
  call self (with_data PUSH_URL "POST" (VDict kwargs)).

Definition push_history (self : client) (modified_timestamp : value) : M value :=
  resp <- call self
            {| url := VStr PUSH_URL; method := "GET"; headers := None;
               params := Some (VDict {[ "modified_after" := modified_timestamp ]});
               data := None; files := None; skip_auth := false |} ;;
  lift (subscript resp "pushes").

Definition dismiss_push (self : client) (push_iden : string) : M value :=
  call self (with_data (PUSH_URL +:+ "/" +:+ push_iden) "POST"
               (VDict {[ "dismissed" := VStr "true" ]})).

Definition delete_push (self : client) (push_iden : string) : M value :=
  _ <- call self (bare (PUSH_URL +:+ "/" +:+ push_iden) "DELETE") ;;
  ret VNone.

(** ** Contacts and the current user (lines 167-226) *)

Definition contacts (self : client) : M value :=
  call self (bare CONTACTS_URL "GET").

Definition create_contact (self : client) (name email : value) : M value :=
  call self (with_data CONTACTS_URL "POST"
               (VDict {[ "name" := name; "email" := email ]})).

Definition update_contact (self : client) (contact_iden : string)
    (kwargs : gmap string value) : M value :=
  call self (with_data (CONTACTS_URL +:+ "/" +:+ contact_iden) "POST" (VDict kwargs)).

Definition delete_contact (self : client) (contact_iden : string) : M value :=
  _ <- call self (bare (CONTACTS_URL +:+ "/" +:+ contact_iden) "DELETE") ;;
  ret VNone.

Definition me (self : client) : M value :=
  call self (bare ME_URL "GET").

Definition update_me (self : client) (kwargs : gmap string value) : M value :=
  call self
    {| url := VStr ME_URL; method := "POST";
       headers := Some (VDict {[ "content-type" := VStr "application/json" ]});
       params := None; data := Some (VStr (json_dumps kwargs));
       files := None; skip_auth := false |}.

(** ** [Client.upload_file] (lines 228-256) *)

(** Line 236. *)
Definition open_input (inputfile : file_arg) : M nat :=
  match inputfile with
  | FromPath p => open_file p
  | OpenFile h => ret h
  end.

(** [x or y] on an optional string argument: [None] and [''] are false. *)
Definition given (x : option string) : option string :=
  match x with
  | Some s => if String.eqb s "" then None else Some s
  | None => None
  end.

(** Line 237. *)
Definition resolve_name (filename : option string) (file_handle : nat) : M string :=
  match given filename with
  | Some n => ret n
  | None => get_name file_handle
  end.

(** Line 238. *)
Definition opt_str (o : option string) : value :=
  match o with
  | Some s => VStr s
  | None => VNone
  end.

Definition resolve_mime (file_type : option string) (name : string) : value :=
  match given file_type with
  | Some t => VStr t
  | None => let '(ty, enc) := guess_type name in VTuple [opt_str ty; opt_str enc]
  end.

(** Lines 240-244: the call that asks for an upload slot. *)
Definition ticket_request (name : string) (mime_type : value) : request :=
  with_data UPLOAD_URL "POST"
    (VDict {[ "file_name" := VStr name; "file_type" := mime_type ]}).

(** Lines 246-254: the call that submits the file. *)
Definition submit_request (upload_url form : value) (file_handle : nat) : request :=
  {| url := upload_url; method := "POST"; headers := None; params := None;
     data := Some form; files := Some {[ "file" := file_handle ]};
     skip_auth := true |}.

Definition upload_file (self : client) (inputfile : file_arg)
    (filename file_type : option string) : M value :=
  file_handle <- open_input inputfile ;;
  name <- resolve_name filename file_handle ;;
  let mime_type := resolve_mime file_type name in
  resp <- call self (ticket_request name mime_type) ;;
  upload_url <- lift (subscript resp "upload_url") ;;
  form <- lift (subscript resp "data") ;;
  _ <- call self (submit_request upload_url form file_handle) ;;
  ret resp.

(** ** Properties of the methods *)

(** [m] hands back what [pick] extracts from the answer to one of the calls
    it made. *)
Definition answers_with (self : client) (m : M value)
    (pick : value → res value) : Prop :=
  ∀ w v w', m w = (Ok v, w') →
    ∃ r e resp e', r ∈ sent w' ∧
      send_request (auth self) r e = (Ok resp, e') ∧ pick resp = Ok v.

(** [m] makes exactly one call, a DELETE on [u], and returns [None] whatever
    the answer was. *)
Definition deletes (self : client) (m : M value) (u : string) : Prop :=
  ∀ w, sent (m w).2 = sent w ++ [bare u "DELETE"] ∧
       ∀ resp e,
         send_request (auth self) (bare u "DELETE") (w_env w) = (Ok resp, e) →
         m w = (Ok VNone,
                {| w_env := e; sent := sent w ++ [bare u "DELETE"] |}).

(** Nothing was sent and neither the disk nor the service changed. *)
Definition quiet (w w' : world service_state) : Prop :=
  sent w' = sent w ∧
  remote (w_env w') = remote (w_env w) ∧
  disk (w_env w') = disk (w_env w).

(** [m] sends nothing, leaves disk and service alone, and raises no bare
    [Exception]. *)
Definition calm {A} (m : M A) : Prop :=
  ∀ w r w', m w = (r, w') → quiet w w' ∧ ∀ msg, r ≠ Raise (Exception msg).

(** Every file object that was open in [e] is still open in [e']. *)
Definition keeps_open (e e' : env service_state) : Prop :=
  ∀ h s, streams e !! h = Some s → s_closed s = false →
         ∃ s', streams e' !! h = Some s' ∧ s_closed s' = false.

(** [m] closes no file object. *)
Definition steady {A} (m : M A) : Prop :=
  ∀ w, keeps_open (w_env w) (w_env (m w).2).

(** [m] makes exactly the call [r] in the environment it starts in; when
    the call answers, [m] ends with what [pick] makes of that answer, and when
    the call raises, [m] raises the same error. *)
Definition returns_answer (self : client) (m : M value) (r : request)
    (pick : value → res value) : Prop :=
  ∀ w, match send_request (auth self) r (w_env w) with
       | (Ok resp, e) =>
           m w = (pick resp, {| w_env := e; sent := sent w ++ [r] |})
       | (Raise x, e) =>
           m w = (Raise x, {| w_env := e; sent := sent w ++ [r] |})
       end.

(** [m] makes exactly the call [r], and an error of that call is the error
    of [m]. *)
Definition forwards (self : client) (m : M value) (r : request) : Prop :=
  ∀ w, sent (m w).2 = sent w ++ [r] ∧
       ∀ x e, send_request (auth self) r (w_env w) = (Raise x, e) →
              m w = (Raise x, {| w_env := e; sent := sent w ++ [r] |}).

(** [r] goes to the service itself: below [BASE_URL], with authentication
    and without attachments. *)
Definition plain (r : request) : Prop :=
  skip_auth r = false ∧ files r = None ∧
  ∃ path, url r = VStr (BASE_URL +:+ path).

(** [m] opens at most [n] file objects, leaves the ones that were there as
    they were, and has closed its own by the time it returns or raises. *)
Definition tidy {A} (n : nat) (m : M A) : Prop :=
  ∀ w r w', m w = (r, w') →
    ∃ opened, streams (w_env w') = streams (w_env w) ++ opened ∧
              Forall (λ s, s_closed s = true) opened ∧
              (length opened ≤ n)%nat.

End Client.

(** ** Sample runs *)

(** Uploading ["a.txt"] by path when the service accepts [quota] more
    calls. *)
Definition sample_upload (quota : nat) : res value * world service_state :=
  upload_file sample_client (FromPath "a.txt") None None (sample_world quota).

(** The same upload with a file object the caller opened beforehand. *)
Definition sample_world_open (quota : nat) : world service_state :=
  {| w_env := {| disk := sample_disk;
                 streams := [{| s_name := Some "a.txt"; s_reads := 0;
                                s_closed := false |}];
                 remote := quota |};
     sent := [] |}.

Definition sample_upload_open (quota : nat) : res value * world service_state :=
  upload_file sample_client (OpenFile 0) None None (sample_world_open quota).

Section Facts.

Context {service : Authenticator} {platform : Platform}.

Implicit Types (w : world service_state) (e : env service_state).

(** ** Stepping through the monad *)

Lemma bind_inv {A B} (m : M A) (k : A → M B) w r w' :
  bind m k w = (r, w') →
  (∃ a w1, m w = (Ok a, w1) ∧ k a w1 = (r, w')) ∨
  (∃ x, m w = (Raise x, w') ∧ r = Raise x).
Proof.
  unfold bind. destruct (m w) as [[a|e] w1]; intros H.
  - left. eauto.
  - right. inversion H; subst. eauto.
Qed.

Lemma bind_ok {A B} (m : M A) (k : A → M B) w b w' :
  bind m k w = (Ok b, w') →
  ∃ a w1, m w = (Ok a, w1) ∧ k a w1 = (Ok b, w').
Proof.
  intros H. apply bind_inv in H as [H | [e [_ H]]]; [exact H | discriminate].
Qed.

Lemma lift_ok {A} (r : res A) w a w' :
  lift r w = (Ok a, w') → r = Ok a ∧ w' = w.
Proof. unfold lift. intros H. inversion H. auto. Qed.

Lemma ret_ok {A} (x : A) w a w' :
  ret x w = (Ok a, w') → a = x ∧ w' = w.
Proof. unfold ret. intros H. inversion H. auto. Qed.

Lemma call_sent self r w : sent (call self r w).2 = sent w ++ [r].
Proof. unfold call. destruct (send_request _ _ _). reflexivity. Qed.

Lemma call_inv self r w v w' :
  call self r w = (v, w') →
  ∃ e, send_request (auth self) r (w_env w) = (v, e) ∧
       w' = {| w_env := e; sent := sent w ++ [r] |}.
Proof.
  unfold call. destruct (send_request _ _ _) as [v0 e]. intros H.
  inversion H; subst. eauto.
Qed.

Lemma call_answers self r : answers_with self (call self r) Ok.
Proof.
  intros w v w' H. apply call_inv in H as (e & Hs & ->).
  exists r, (w_env w), v, e. simpl. split; [| auto].
  apply elem_of_app. right. apply list_elem_of_singleton. reflexivity.
Qed.

Lemma call_then_answers self r key :
  answers_with self (bind (call self r) (λ resp, lift (subscript resp key)))
    (λ resp, subscript resp key).
Proof.
  intros w v w' H. apply bind_ok in H as (resp & w1 & Hc & Hl).
  apply lift_ok in Hl as [Hk ->]. apply call_inv in Hc as (e & Hs & ->).
  exists r, (w_env w), resp, e. simpl. split; [| auto].
  apply elem_of_app. right. apply list_elem_of_singleton. reflexivity.
Qed.

Lemma call_then_none self u :
  deletes self (bind (call self (bare u "DELETE")) (λ _, ret VNone)) u.
Proof.
  intros w. unfold bind, call, ret.
  destruct (send_request _ _ _) as [[resp|x] e] eqn:Hs; simpl.
  - split; [reflexivity |]. intros resp' e' H. inversion H; subst. reflexivity.
  - split; [reflexivity |]. intros resp' e' H. discriminate.
Qed.

(** ** [upload_file], step by step *)

Lemma open_input_inv inputfile w fh w1 :
  open_input inputfile w = (Ok fh, w1) →
  sent w1 = sent w ∧
  match inputfile with
  | FromPath p =>
      fh = length (streams (w_env w)) ∧
      streams (w_env w1) =
        streams (w_env w) ++ [{| s_name := Some p; s_reads := 0; s_closed := false |}]
  | OpenFile h => fh = h ∧ w1 = w
  end.
Proof.
  destruct inputfile as [p|h]; simpl.
  - unfold open_file. destruct (disk (w_env w) !! p); intros H; inversion H; subst.
    simpl. auto.
  - unfold ret. intros H; inversion H; subst. auto.
Qed.

Lemma resolve_name_inv filename fh w r w1 :
  resolve_name filename fh w = (r, w1) → w1 = w.
Proof.
  unfold resolve_name, ret, get_name.
  destruct (given filename); [| destruct (_ ≫= _)]; intros H; inversion H; reflexivity.
Qed.

(** A successful upload, taken apart. *)
Lemma upload_file_ok_inv self inputfile filename file_type w v w' :
  upload_file self inputfile filename file_type w = (Ok v, w') →
  ∃ fh w1 name e2 upload_url form rb e3,
    open_input inputfile w = (Ok fh, w1) ∧
    resolve_name filename fh w1 = (Ok name, w1) ∧
    send_request (auth self)
      (ticket_request name (resolve_mime file_type name)) (w_env w1) = (Ok v, e2) ∧
    subscript v "upload_url" = Ok upload_url ∧
    subscript v "data" = Ok form ∧
    send_request (auth self) (submit_request upload_url form fh) e2 = (Ok rb, e3) ∧
    w' = {| w_env := e3;
            sent := sent w ++ [ticket_request name (resolve_mime file_type name);
                               submit_request upload_url form fh] |}.
Proof.
  unfold upload_file. intros H.
  apply bind_ok in H as (fh & w1 & Ho & H).
  apply bind_ok in H as (name & w2 & Hn & H).
  pose proof (resolve_name_inv _ _ _ _ _ Hn) as ->.
  apply bind_ok in H as (resp & w3 & Ha & H).
  apply bind_ok in H as (upload_url & w4 & Hu & H).
  apply lift_ok in Hu as [Hu ->].
  apply bind_ok in H as (form & w5 & Hd & H).
  apply lift_ok in Hd as [Hd ->].
  apply bind_ok in H as (rb & w6 & Hb & H).
  apply ret_ok in H as [-> ->].
  apply call_inv in Ha as (e2 & Ha & ->).
  apply call_inv in Hb as (e3 & Hb & ->). simpl in Hb.
  destruct (open_input_inv _ _ _ _ Ho) as [Hs _].
  exists fh, w1, name, e2, upload_url, form, rb, e3.
  repeat split; try assumption.
  simpl. rewrite Hs, <- app_assoc. reflexivity.
Qed.

(** As soon as the name is resolved, the upload-request call goes out. *)
Lemma upload_file_first_call self inputfile filename file_type w fh w1 name :
  open_input inputfile w = (Ok fh, w1) →
  resolve_name filename fh w1 = (Ok name, w1) →
  ∃ rest, sent (upload_file self inputfile filename file_type w).2 =
          sent w ++ ticket_request name (resolve_mime file_type name) :: rest.
Proof.
  intros Ho Hn. destruct (open_input_inv _ _ _ _ Ho) as [Hs _].
  unfold upload_file, bind. rewrite Ho, Hn.
  destruct (call self _ w1) as [[resp|x] w3] eqn:Ha;
    apply call_inv in Ha as (e2 & Ha & ->).
  - unfold lift.
    destruct (subscript resp "upload_url") as [upload_url|x]; simpl;
      [| rewrite Hs; eauto].
    destruct (subscript resp "data") as [form|x]; simpl; [| rewrite Hs; eauto].
    destruct (call self _ _) as [[rb|x] w6] eqn:Hb;
      apply call_inv in Hb as (e3 & Hb & ->); simpl;
      rewrite Hs, <- app_assoc; simpl; eauto.
  - simpl. rewrite Hs. eauto.
Qed.

(** ** The constructor, step by step *)

Lemma quiet_refl w : quiet w w.
Proof. repeat split. Qed.

Lemma quiet_trans w1 w2 w3 : quiet w1 w2 → quiet w2 w3 → quiet w1 w3.
Proof.
  intros (H1 & H2 & H3) (H4 & H5 & H6).
  repeat split; etrans; eassumption.
Qed.

Lemma load_config_outcome settings_arg w r w' :
  _load_config settings_arg w = (r, w') →
  quiet w w' ∧ ∀ msg, r ≠ Raise (Exception msg).
Proof.
  unfold _load_config.
  destruct (if truthy settings_arg then settings_arg else VStr GLOBAL_SETTINGS_FILE);
    try (unfold raise; intros H; inversion H; subst; split; [apply quiet_refl | done]).
  unfold bind, open_file.
  destruct (disk (w_env w) !! s) as [c|].
  - unfold with_closing, json_load, close_file, set_streams. simpl.
    rewrite lookup_app_r, Nat.sub_diag by lia. simpl.
    destruct (disk (w_env w) !! s) as [[v|]|]; simpl;
      intros H; inversion H; subst; (split; [repeat split | done]).
  - intros H; inversion H; subst. split; [apply quiet_refl | done].
Qed.

Lemma load_config_global base w :
  disk (w_env w) !! GLOBAL_SETTINGS_FILE = Some (Some base) →
  (_load_config VNone w).1 = Ok base.
Proof.
  intros Hd. unfold _load_config. simpl. unfold bind, open_file. rewrite Hd.
  unfold with_closing, json_load. simpl.
  rewrite lookup_app_r, Nat.sub_diag by lia. simpl. rewrite Hd. reflexivity.
Qed.

(** The file object that [_load_config] opens is closed when it returns. *)
Lemma load_config_closes p w r w' :
  p ≠ "" → is_Some (disk (w_env w) !! p) →
  _load_config (VStr p) w = (r, w') →
  ∃ s, streams (w_env w') !! length (streams (w_env w)) = Some s ∧
       s_name s = Some p ∧ s_closed s = true.
Proof.
  intros Hp [c Hd]. unfold _load_config. simpl.
  apply String.eqb_neq in Hp. rewrite Hp. simpl.
  unfold bind, open_file. rewrite Hd.
  unfold with_closing, json_load, close_file, set_streams. simpl.
  rewrite lookup_app_r, Nat.sub_diag by lia. simpl. rewrite Hd.
  destruct c; intros H; inversion H; subst; simpl;
    rewrite !list_lookup_alter_eq, lookup_app_r, Nat.sub_diag by lia; simpl; eauto.
Qed.

Lemma dict_update_no_exception target other msg :
  dict_update target other ≠ Raise (Exception msg).
Proof. destruct target, other; simpl; done. Qed.

Lemma subscript_no_exception v key msg :
  subscript v key ≠ Raise (Exception msg).
Proof. destruct v; simpl; try done. destruct (d !! key); done. Qed.

Lemma calm_ret {A} (a : A) : calm (ret a).
Proof.
  intros w r w' H. unfold ret in H. inversion H; subst.
  split; [apply quiet_refl | done].
Qed.

Lemma calm_lift {A} (r : res A) :
  (∀ msg, r ≠ Raise (Exception msg)) → calm (lift r).
Proof.
  intros Hr w r0 w' H. unfold lift in H. inversion H; subst.
  split; [apply quiet_refl | exact Hr].
Qed.

Lemma calm_bind {A B} (m : M A) (k : A → M B) :
  calm m → (∀ a, calm (k a)) → calm (bind m k).
Proof.
  intros Hm Hk w r w' H.
  apply bind_inv in H as [(a & w1 & H1 & H2) | (e & H1 & ->)].
  - apply Hm in H1 as [Hq1 _]. apply Hk in H2 as [Hq2 Hne].
    split; [eapply quiet_trans; eassumption | exact Hne].
  - apply Hm in H1 as [Hq1 Hne]. split; [assumption |].
    intros msg Hr. inversion Hr; subst. exact (Hne msg eq_refl).
Qed.

Lemma calm_path_exists p : calm (path_exists p).
Proof.
  intros w r w' H. unfold path_exists in H. inversion H; subst.
  split; [apply quiet_refl | done].
Qed.

Lemma calm_load_config settings_arg : calm (_load_config settings_arg).
Proof. intros w r w'. apply load_config_outcome. Qed.

(** The only [Exception] the merge can raise is the one of line 31, and then
    no settings were to be had. *)
Lemma merge_settings_outcome settings_arg w r w' :
  merge_settings settings_arg w = (r, w') →
  quiet w w' ∧
  ∀ msg, r = Raise (Exception msg) →
         msg = "No settings given" ∧
         disk (w_env w) !! GLOBAL_SETTINGS_FILE = None ∧
         truthy settings_arg = false.
Proof.
  unfold merge_settings. intros H.
  apply bind_inv in H as [(present & w0 & Hp & H) | (e & Hp & _)];
    unfold path_exists in Hp; inversion Hp; subst; clear Hp.
  destruct (negb _ && negb _) eqn:Hc.
  - unfold raise in H. inversion H; subst. split; [apply quiet_refl |].
    intros msg Hr. inversion Hr; subst.
    apply andb_true_iff in Hc as [Hex Ht].
    apply negb_true_iff in Hex, Ht. apply bool_decide_eq_false in Hex.
    repeat split; [| exact Ht].
    destruct (disk _ !! GLOBAL_SETTINGS_FILE); [| done].
    exfalso. apply Hex. eauto.
  - revert H. match goal with |- ?m _ = _ → _ => assert (calm m) as Hcalm end.
    { apply calm_bind; [apply calm_path_exists |]. intros ex.
      apply calm_bind.
      { destruct ex; [apply calm_load_config | apply calm_ret]. }
      intros base. destruct (truthy settings_arg); [| apply calm_ret].
      apply calm_bind.
      { destruct settings_arg; try apply calm_ret. apply calm_load_config. }
      intros override. apply calm_lift. intros msg.
      apply dict_update_no_exception. }
    intros H. apply Hcalm in H as [Hq Hne]. split; [exact Hq |].
    intros msg Hr. exfalso. exact (Hne msg Hr).
Qed.

Lemma select_auth_outcome merged w r w' :
  select_auth merged w = (r, w') →
  w' = w ∧
  (∀ c, r = Ok c → settings c = merged) ∧
  r ≠ Raise (Exception "No settings given").
Proof.
  unfold select_auth, bind, lift.
  destruct (subscript merged "auth") as [a|x] eqn:Ha.
  - destruct (subscript a "type") as [t|x] eqn:Ht.
    + destruct (eq_str t "basic"); [| destruct (eq_str t "oauth")];
        unfold ret, raise; intros H; inversion H; subst;
        (split; [reflexivity | split; [| done]]);
        intros c Hc; inversion Hc; subst; reflexivity.
    + intros H; inversion H; subst. split; [reflexivity | split; [done |]].
      intros Hr. inversion Hr; subst. exact (subscript_no_exception _ _ _ Ht).
  - intros H; inversion H; subst. split; [reflexivity | split; [done |]].
    intros Hr. inversion Hr; subst. exact (subscript_no_exception _ _ _ Ha).
Qed.

Lemma merge_settings_union base override w :
  disk (w_env w) !! GLOBAL_SETTINGS_FILE = Some (Some (VDict base)) →
  (merge_settings (VDict override) w).1 = Ok (VDict (override ∪ base)).
Proof.
  intros Hd.
  assert (bool_decide (is_Some (disk (w_env w) !! GLOBAL_SETTINGS_FILE)) = true)
    as Hex by (apply bool_decide_eq_true_2; rewrite Hd; eauto).
  unfold merge_settings, bind, path_exists. rewrite Hex. simpl. rewrite Hex.
  pose proof (load_config_global _ _ Hd) as Hl.
  destruct (_load_config VNone w) as [r w1]. simpl in Hl. subst r.
  destruct (bool_decide (override = ∅)) eqn:He; simpl.
  - apply bool_decide_eq_true in He. subst override.
    rewrite (left_id_L ∅ (∪)). reflexivity.
  - reflexivity.
Qed.

(** ** Pushes and deletions *)


Lemma call_returns self r : returns_answer self (call self r) r Ok.
Proof.
  intros w. unfold call.
  destruct (send_request (auth self) r (w_env w)) as [[resp|x] e]; reflexivity.
Qed.

Lemma call_then_returns self r (pick : value → res value) :
  returns_answer self (bind (call self r) (λ resp, lift (pick resp))) r pick.
Proof.
  intros w. unfold bind, call, lift.
  destruct (send_request (auth self) r (w_env w)) as [[resp|x] e]; reflexivity.
Qed.

(** What [returns_answer] says of a method that ends well: its value comes
    from the answer to a call it recorded. *)
Lemma returns_answer_answers_with self m r pick :
  returns_answer self m r pick → answers_with self m pick.
Proof.
  intros Hm w v w' H. specialize (Hm w).
  destruct (send_request (auth self) r (w_env w)) as [[resp|x] e] eqn:Hs;
    rewrite Hm in H; inversion H; subst.
  exists r, (w_env w), resp, e. simpl. split; [| auto].
  apply elem_of_app. right. apply list_elem_of_here.
Qed.

(** A run of [upload_file] in which both calls answer. *)
Lemma upload_file_ok_run self inputfile filename file_type w
    fh w1 name resp e2 u form rb e3 :
  open_input inputfile w = (Ok fh, w1) →
  resolve_name filename fh w1 = (Ok name, w1) →
  send_request (auth self)
    (ticket_request name (resolve_mime file_type name)) (w_env w1) = (Ok resp, e2) →
  subscript resp "upload_url" = Ok u →
  subscript resp "data" = Ok form →
  send_request (auth self) (submit_request u form fh) e2 = (Ok rb, e3) →
  upload_file self inputfile filename file_type w =
    (Ok resp, {| w_env := e3;
                 sent := sent w ++
                           [ticket_request name (resolve_mime file_type name);
                            submit_request u form fh] |}).
Proof.
  intros Ho Hn Ha Hu Hd Hb. destruct (open_input_inv _ _ _ _ Ho) as [Hs _].
  unfold upload_file, bind. rewrite Ho, Hn. unfold call at 1. rewrite Ha.
  unfold lift. rewrite Hu, Hd. unfold call. simpl. rewrite Hb.
  unfold ret. rewrite Hs, <- app_assoc. reflexivity.
Qed.

(** C10. [delete_device], [delete_push] and [delete_contact] each make one
    DELETE call and return [None] whatever the answer was.  Every other
    method makes its call in the environment it starts in and, when the call
    answers, returns that very answer ([devices] and [push_history]: the
    field of it they name); when the call raises, so does the method.
    [upload_file], when both its calls answer, returns the answer to the
    first. *)
Theorem deletes_return_none self :
  (∀ iden, deletes self (delete_device self iden) (DEVICE_URL +:+ "/" +:+ iden)) ∧
  (∀ iden, deletes self (delete_push self iden) (PUSH_URL +:+ "/" +:+ iden)) ∧
  (∀ iden, deletes self (delete_contact self iden) (CONTACTS_URL +:+ "/" +:+ iden)) ∧
  returns_answer self (devices self) (bare DEVICE_URL "GET")
    (λ resp, subscript resp "devices") ∧
  (∀ name ty,
     returns_answer self (create_device self name ty)
       (with_data DEVICE_URL "POST"
          (VDict {[ "type" := ty; "nickname" := name ]})) Ok) ∧
  (∀ iden kw,
     returns_answer self (update_device self iden kw)
       (with_data (DEVICE_URL +:+ "/" +:+ iden) "POST" (VDict kw)) Ok) ∧
  (∀ ty kw,
     returns_answer self (push self ty kw)
       (with_data PUSH_URL "POST" (VDict (<[ "type" := ty ]> kw))) Ok) ∧
  (∀ ts,
     returns_answer self (push_history self ts)
       {| url := VStr PUSH_URL; method := "GET"; headers := None;
          params := Some (VDict {[ "modified_after" := ts ]});
          data := None; files := None; skip_auth := false |}
       (λ resp, subscript resp "pushes")) ∧
  (∀ iden,
     returns_answer self (dismiss_push self iden)
       (with_data (PUSH_URL +:+ "/" +:+ iden) "POST"
          (VDict {[ "dismissed" := VStr "true" ]})) Ok) ∧
  returns_answer self (contacts self) (bare CONTACTS_URL "GET") Ok ∧
  (∀ name email,
     returns_answer self (create_contact self name email)
       (with_data CONTACTS_URL "POST"
          (VDict {[ "name" := name; "email" := email ]})) Ok) ∧
  (∀ iden kw,
     returns_answer self (update_contact self iden kw)
       (with_data (CONTACTS_URL +:+ "/" +:+ iden) "POST" (VDict kw)) Ok) ∧
  returns_answer self (me self) (bare ME_URL "GET") Ok ∧
  (∀ kw,
     returns_answer self (update_me self kw)
       {| url := VStr ME_URL; method := "POST";
          headers := Some (VDict {[ "content-type" := VStr "application/json" ]});
          params := None; data := Some (VStr (json_dumps kw));
          files := None; skip_auth := false |} Ok) ∧
  (∀ inputfile filename file_type w fh w1 name resp e2 u form rb e3,
     open_input inputfile w = (Ok fh, w1) →
     resolve_name filename fh w1 = (Ok name, w1) →
     send_request (auth self)
       (ticket_request name (resolve_mime file_type name)) (w_env w1) =
       (Ok resp, e2) →
     subscript resp "upload_url" = Ok u →
     subscript resp "data" = Ok form →
     send_request (auth self) (submit_request u form fh) e2 = (Ok rb, e3) →
     upload_file self inputfile filename file_type w =
       (Ok resp, {| w_env := e3;
                    sent := sent w ++
                              [ticket_request name (resolve_mime file_type name);
                               submit_request u form fh] |})).
Proof.
  repeat apply conj; intros; try apply call_then_none; try apply call_returns.
  - apply (call_then_returns self _ (λ resp, subscript resp "devices")).
  - (* create_device binds the answer before returning it *)
    intros w. unfold create_device, bind, call, ret.
    destruct (send_request _ _ _) as [[resp|x] e]; reflexivity.
  - apply (call_then_returns self _ (λ resp, subscript resp "pushes")).
  - eapply upload_file_ok_run; eassumption.
Qed.

(** ** Uploads *)


(** C8. What a successful [upload_file] returns is the answer to its
    upload-request call, whatever the second call answered. *)
Theorem upload_file_returns_ticket self inputfile filename file_type w v w' :
  upload_file self inputfile filename file_type w = (Ok v, w') →
  ∃ fh w1 name e2 upload_url form rb e3,
    open_input inputfile w = (Ok fh, w1) ∧
    resolve_name filename fh w1 = (Ok name, w1) ∧
    send_request (auth self)
      (ticket_request name (resolve_mime file_type name)) (w_env w1) = (Ok v, e2) ∧
    subscript v "upload_url" = Ok upload_url ∧
    subscript v "data" = Ok form ∧
    send_request (auth self) (submit_request upload_url form fh) e2 = (Ok rb, e3).
Proof.
  intros H.
  apply upload_file_ok_inv in H
    as (fh & w1 & name & e2 & u & form & rb & e3 & Ho & Hn & Ha & Hu & Hd & Hb & _).
  exists fh, w1, name, e2, u, form, rb, e3. repeat split; assumption.
Qed.

(** C9. Called without a [file_type], [upload_file] puts the whole pair that
    [guess_type] returns for the file name, as a two-element tuple, under
    [file_type] in the payload of its upload-request call. *)
Theorem upload_file_guess_is_pair self inputfile filename w fh w1 name :
  open_input inputfile w = (Ok fh, w1) →
  resolve_name filename fh w1 = (Ok name, w1) →
  ∃ payload rest,
    sent (upload_file self inputfile filename None w).2 =
      sent w ++ with_data UPLOAD_URL "POST" (VDict payload) :: rest ∧
    payload !! "file_name" = Some (VStr name) ∧
    payload !! "file_type" =
      Some (VTuple [opt_str (guess_type name).1; opt_str (guess_type name).2]).
Proof.
  intros Ho Hn.
  destruct (upload_file_first_call self _ _ None _ _ _ _ Ho Hn) as [rest Hs].
  eexists _, rest. split; [exact Hs |].
  unfold resolve_mime. simpl. destruct (guess_type name) as [ty enc]. simpl.
  split; [apply lookup_insert_eq |].
  rewrite lookup_insert_ne by done. apply lookup_insert_eq.
Qed.

(** [send_request] leaves alone every file object it was not handed. *)
Hypothesis send_request_frame :
  ∀ a r e h, ¬ attached r h →
             streams (send_request a r e).2 !! h = streams e !! h.

(** C4. When the upload-request call raises, [upload_file] raises the same
    error, the record holds that one call and no call to an upload URL, and the
    table of file objects is as opening the input left it: nothing was read. *)
Theorem upload_file_phase_A_failure self inputfile filename file_type w
    fh w1 name x e2 :
  open_input inputfile w = (Ok fh, w1) →
  resolve_name filename fh w1 = (Ok name, w1) →
  send_request (auth self)
    (ticket_request name (resolve_mime file_type name)) (w_env w1) = (Raise x, e2) →
  upload_file self inputfile filename file_type w =
    (Raise x, {| w_env := e2;
                 sent := sent w ++
                           [ticket_request name (resolve_mime file_type name)] |}) ∧
  files (ticket_request name (resolve_mime file_type name)) = None ∧
  streams e2 = streams (w_env w1).
Proof.
  intros Ho Hn Ha. destruct (open_input_inv _ _ _ _ Ho) as [Hs _].
  split; [| split; [reflexivity |]].
  - unfold upload_file, bind. rewrite Ho, Hn. unfold call. rewrite Ha, Hs.
    reflexivity.
  - apply list_eq. intros h.
    pose proof (send_request_frame (auth self)
                  (ticket_request name (resolve_mime file_type name))
                  (w_env w1) h) as Hf.
    rewrite Ha in Hf. apply Hf. intros (d & k & Hd & _). discriminate Hd.
Qed.

(** [send_request] closes no file object. *)
Hypothesis send_request_keeps_open : ∀ a r e, keeps_open e (send_request a r e).2.

Lemma keeps_open_refl (e : env service_state) : keeps_open e e.
Proof. intros h s Hs Hc. eauto. Qed.

Lemma keeps_open_trans (e1 e2 e3 : env service_state) :
  keeps_open e1 e2 → keeps_open e2 e3 → keeps_open e1 e3.
Proof.
  intros H12 H23 h s Hs Hc.
  destruct (H12 h s Hs Hc) as (s2 & Hs2 & Hc2). eauto.
Qed.

Lemma steady_bind {A B} (m : M A) (k : A → M B) :
  steady m → (∀ a, steady (k a)) → steady (bind m k).
Proof.
  intros Hm Hk w. unfold bind. specialize (Hm w).
  destruct (m w) as [[a|e] w1]; simpl in *; [| exact Hm].
  eapply keeps_open_trans; [exact Hm | apply Hk].
Qed.

Lemma steady_ret {A} (a : A) : steady (ret a).
Proof. intros w. apply keeps_open_refl. Qed.

Lemma steady_lift {A} (r : res A) : steady (lift r).
Proof. intros w. apply keeps_open_refl. Qed.

Lemma steady_call self r : steady (call self r).
Proof.
  intros w. unfold call.
  pose proof (send_request_keeps_open (auth self) r (w_env w)) as H.
  destruct (send_request _ _ _). exact H.
Qed.

Lemma steady_open_input inputfile : steady (open_input inputfile).
Proof.
  intros w. destruct inputfile as [p|h]; simpl; [| apply keeps_open_refl].
  unfold open_file. destruct (disk (w_env w) !! p); [| apply keeps_open_refl].
  intros h s Hs Hc. simpl. exists s. split; [| exact Hc].
  apply lookup_app_l_Some. exact Hs.
Qed.

Lemma steady_resolve_name filename fh : steady (resolve_name filename fh).
Proof.
  intros w. destruct (resolve_name filename fh w) as [r w1] eqn:H.
  apply resolve_name_inv in H as ->. apply keeps_open_refl.
Qed.

(** The calls and lookups that follow the opening of the input. *)
Lemma steady_upload_rest self filename file_type fh :
  steady (bind (resolve_name filename fh) (λ name,
          bind (call self (ticket_request name (resolve_mime file_type name))) (λ resp,
          bind (lift (subscript resp "upload_url")) (λ upload_url,
          bind (lift (subscript resp "data")) (λ form,
          bind (call self (submit_request upload_url form fh)) (λ _,
          ret resp)))))).
Proof.
  repeat (apply steady_bind; [| intros ?]);
    auto using steady_resolve_name, steady_call, steady_lift, steady_ret.
Qed.

(** No exit of [upload_file] closes a file object: one the caller handed in
    stays open, and so does one the method opened itself. *)
Lemma upload_file_steady self inputfile filename file_type :
  steady (upload_file self inputfile filename file_type).
Proof.
  unfold upload_file. apply steady_bind; [apply steady_open_input |].
  intros fh. apply steady_upload_rest.
Qed.

Lemma upload_file_leaves_open self p filename file_type w :
  is_Some (disk (w_env w) !! p) →
  ∃ s, streams (w_env (upload_file self (FromPath p) filename file_type w).2)
         !! length (streams (w_env w)) = Some s ∧
       s_closed s = false.
Proof.
  intros [c Hd].
  pose (w1 := set_streams
                (streams (w_env w) ++
                 [{| s_name := Some p; s_reads := 0; s_closed := false |}]) w).
  pose proof (steady_upload_rest self filename file_type
                (length (streams (w_env w))) w1) as H.
  assert (upload_file self (FromPath p) filename file_type w =
          bind (resolve_name filename (length (streams (w_env w)))) (λ name,
          bind (call self (ticket_request name (resolve_mime file_type name))) (λ resp,
          bind (lift (subscript resp "upload_url")) (λ upload_url,
          bind (lift (subscript resp "data")) (λ form,
          bind (call self (submit_request upload_url form
                             (length (streams (w_env w))))) (λ _,
          ret resp))))) w1) as ->.
  { unfold upload_file. unfold bind at 1. simpl. unfold open_file. rewrite Hd.
    reflexivity. }
  eapply H; simpl.
  - rewrite lookup_app_r, Nat.sub_diag by lia. reflexivity.
  - reflexivity.
Qed.

(** ** Construction *)

(** C1, as the code has it.  With a global settings file holding [base],
    the constructor merges an override mapping over it at the top level
    only: every key of the override carries the override's value, every
    other key keeps the base's value.  An [auth] mapping in the override is
    such a key, so it takes the place of the base's [auth] mapping whole.
    The client, when one is built, holds the merged mapping. *)
Theorem merge_settings_top_level base override w :
  disk (w_env w) !! GLOBAL_SETTINGS_FILE = Some (Some (VDict base)) →
  ∃ merged,
    (merge_settings (VDict override) w).1 = Ok (VDict merged) ∧
    (∀ k v, override !! k = Some v → merged !! k = Some v) ∧
    (∀ k, override !! k = None → merged !! k = base !! k) ∧
    (∀ c w', Client_init (VDict override) w = (Ok c, w') →
             settings c = VDict merged).
Proof.
  intros Hd. exists (override ∪ base).
  pose proof (merge_settings_union base override w Hd) as Hm.
  split; [exact Hm |]. split; [| split].
  - intros k v Hk. apply lookup_union_Some_l. exact Hk.
  - intros k Hk. apply lookup_union_r. exact Hk.
  - intros c w' Hc. unfold Client_init in Hc.
    apply bind_ok in Hc as (m & w1 & Hm1 & Hs).
    rewrite Hm1 in Hm. simpl in Hm. inversion Hm; subst.
    apply select_auth_outcome in Hs as (_ & Hset & _). apply Hset. reflexivity.
Qed.

(** Settings that have an [auth.type].  Once the settings are merged,
    nothing has been sent.  If their [auth.type] is neither ['basic'] nor
    ['oauth'] the constructor raises its invalid-scheme error there and then;
    if it is ['basic'] or ['oauth'] the client gets the authenticator variant
    of that name, built from the [auth] mapping. *)
Theorem init_selects_authenticator settings_arg w merged w1 a t :
  merge_settings settings_arg w = (Ok merged, w1) →
  subscript merged "auth" = Ok a →
  subscript a "type" = Ok t →
  quiet w w1 ∧
  (t ≠ VStr "basic" → t ≠ VStr "oauth" →
   Client_init settings_arg w =
     (Raise (Exception
        "Invalid authentication scheme given. Must be basic or oauth"), w1)) ∧
  (t = VStr "basic" →
   Client_init settings_arg w =
     (Ok {| settings := merged; auth := BasicAuthenticator a |}, w1)) ∧
  (t = VStr "oauth" →
   Client_init settings_arg w =
     (Ok {| settings := merged; auth := OAuthAuthenticator a |}, w1)).
Proof.
  intros Hm Ha Ht.
  assert (Client_init settings_arg w =
          (if eq_str t "basic"
           then ret {| settings := merged; auth := BasicAuthenticator a |}
           else if eq_str t "oauth"
           then ret {| settings := merged; auth := OAuthAuthenticator a |}
           else raise (Exception
             "Invalid authentication scheme given. Must be basic or oauth")) w1)
    as Hinit.
  { unfold Client_init, bind. rewrite Hm.
    unfold select_auth, bind, lift. rewrite Ha, Ht. reflexivity. }
  split; [exact (proj1 (merge_settings_outcome _ _ _ _ Hm)) |].
  rewrite Hinit. split; [| split].
  - intros Hb Ho.
    assert (eq_str t "basic" = false) as ->.
    { destruct t; simpl; try reflexivity. apply String.eqb_neq. congruence. }
    assert (eq_str t "oauth" = false) as ->.
    { destruct t; simpl; try reflexivity. apply String.eqb_neq. congruence. }
    reflexivity.
  - intros ->. reflexivity.
  - intros ->. reflexivity.
Qed.

(** C7, as the code has it.  With no global settings file and an override
    that is absent or empty, the constructor raises its no-settings error and
    leaves the world as it was; with a global settings file, or with an
    override that is not empty, it never raises that error. *)
Theorem init_without_settings settings_arg w :
  (disk (w_env w) !! GLOBAL_SETTINGS_FILE = None →
   truthy settings_arg = false →
   Client_init settings_arg w = (Raise (Exception "No settings given"), w)) ∧
  (is_Some (disk (w_env w) !! GLOBAL_SETTINGS_FILE) ∨ truthy settings_arg = true →
   (Client_init settings_arg w).1 ≠ Raise (Exception "No settings given")).
Proof.
  split.
  - intros Hd Ht. unfold Client_init, merge_settings, bind, path_exists.
    rewrite Hd, Ht.
    rewrite bool_decide_eq_false_2 by (intros [? ?]; discriminate).
    reflexivity.
  - intros Hor Hr.
    destruct (Client_init settings_arg w) as [r w'] eqn:E. simpl in Hr. subst r.
    unfold Client_init in E.
    apply bind_inv in E as [(m & w1 & Hm & Hs) | (x & Hm & Hx)].
    + apply select_auth_outcome in Hs as (_ & _ & Hne). apply Hne. reflexivity.
    + inversion Hx; subst x.
      apply merge_settings_outcome in Hm as [_ Hm].
      destruct (Hm _ eq_refl) as (_ & Hd & Ht).
      destruct Hor as [[c Hc] | Ht']; congruence.
Qed.

(** Without an [auth] mapping, or without a [type] in it, the constructor
    fails on the lookup, again before anything is sent. *)
Lemma init_fails_without_auth_type settings_arg w merged w1 x :
  merge_settings settings_arg w = (Ok merged, w1) →
  subscript merged "auth" = Raise x ∨
  (∃ a, subscript merged "auth" = Ok a ∧ subscript a "type" = Raise x) →
  quiet w w1 ∧ Client_init settings_arg w = (Raise x, w1).
Proof.
  intros Hm Hx. split; [exact (proj1 (merge_settings_outcome _ _ _ _ Hm)) |].
  unfold Client_init, bind. rewrite Hm. unfold select_auth, bind, lift.
  destruct Hx as [Ha | (a & Ha & Ht)]; rewrite Ha; [| rewrite Ht]; reflexivity.
Qed.

(** C6, as the code has it.  Once the settings are merged nothing has been
    sent, and what the constructor does next is decided by [auth.type].  A
    [type] that is there and is neither ['basic'] nor ['oauth'] raises the
    invalid-scheme error; ['basic'] and ['oauth'] build the authenticator
    variant of that name from the [auth] mapping.  A missing [auth] or a
    missing [type] raises [KeyError] for that key, and settings or an [auth]
    that are no mapping raise [TypeError]: these are not the invalid-scheme
    error, and they too come before any call. *)
Theorem init_auth_type_outcome settings_arg w merged w1 :
  merge_settings settings_arg w = (Ok merged, w1) →
  quiet w w1 ∧
  (∀ a t, subscript merged "auth" = Ok a → subscript a "type" = Ok t →
     (t ≠ VStr "basic" → t ≠ VStr "oauth" →
      Client_init settings_arg w =
        (Raise (Exception
           "Invalid authentication scheme given. Must be basic or oauth"), w1)) ∧
     (t = VStr "basic" →
      Client_init settings_arg w =
        (Ok {| settings := merged; auth := BasicAuthenticator a |}, w1)) ∧
     (t = VStr "oauth" →
      Client_init settings_arg w =
        (Ok {| settings := merged; auth := OAuthAuthenticator a |}, w1))) ∧
  (∀ d, merged = VDict d → d !! "auth" = None →
     Client_init settings_arg w = (Raise (KeyError "auth"), w1)) ∧
  (∀ d a, merged = VDict d → d !! "auth" = Some (VDict a) → a !! "type" = None →
     Client_init settings_arg w = (Raise (KeyError "type"), w1)) ∧
  (∀ d a, merged = VDict d → d !! "auth" = Some a → (∀ m, a ≠ VDict m) →
     Client_init settings_arg w = (Raise TypeError, w1)) ∧
  ((∀ d, merged ≠ VDict d) →
     Client_init settings_arg w = (Raise TypeError, w1)).
Proof.
  intros Hm. split; [exact (proj1 (merge_settings_outcome _ _ _ _ Hm)) |].
  repeat apply conj.
  - intros a t Ha Ht.
    destruct (init_selects_authenticator _ _ _ _ _ _ Hm Ha Ht) as (_ & H1 & H2 & H3).
    auto.
  - intros d -> Hd. apply (init_fails_without_auth_type _ _ _ _ _ Hm).
    left. simpl. rewrite Hd. reflexivity.
  - intros d a -> Hd Ha. apply (init_fails_without_auth_type _ _ _ _ _ Hm).
    right. exists (VDict a). simpl. rewrite Hd, Ha. auto.
  - intros d a -> Hd Ha. apply (init_fails_without_auth_type _ _ _ _ _ Hm).
    right. exists a. simpl. rewrite Hd. split; [reflexivity |].
    destruct a; try reflexivity. exfalso. eapply Ha. reflexivity.
  - intros Hnd. apply (init_fails_without_auth_type _ _ _ _ _ Hm).
    left. destruct merged; try reflexivity. exfalso. eapply Hnd. reflexivity.
Qed.

End Facts.

(** ** The sample service obeys the assumptions *)

Lemma read_all_other hs ss h :
  h ∉ hs → read_all hs ss !! h = ss !! h.
Proof.
  induction hs as [|h0 hs IH]; simpl; intros Hh; [reflexivity |].
  apply not_elem_of_cons in Hh as [Hne Hh].
  rewrite list_lookup_alter_ne by congruence. apply IH. exact Hh.
Qed.

Lemma sample_send_frame a r (e : env nat) h :
  ¬ attached r h → streams (sample_send a r e).2 !! h = streams e !! h.
Proof.
  intros Hn. unfold sample_send. destruct (remote e); simpl; [reflexivity |].
  apply read_all_other. unfold attachments.
  destruct (files r) as [d|] eqn:Hf; [| apply not_elem_of_nil].
  intros Hin. apply list_elem_of_fmap in Hin as ([k h'] & -> & Hin).
  apply elem_of_map_to_list in Hin. apply Hn. exists d, k. auto.
Qed.

Lemma read_all_keeps hs ss h s :
  ss !! h = Some s → s_closed s = false →
  ∃ s', read_all hs ss !! h = Some s' ∧ s_closed s' = false.
Proof.
  intros Hs Hc. induction hs as [|h0 hs (s' & Hs' & Hc')]; simpl; [eauto |].
  destruct (decide (h0 = h)) as [->|Hne].
  - rewrite list_lookup_alter_eq, Hs'. simpl. eauto.
  - rewrite list_lookup_alter_ne by exact Hne. eauto.
Qed.

Lemma sample_send_keeps_open a r (e : env nat) :
  keeps_open e (sample_send a r e).2.
Proof.
  intros h s Hs Hc. unfold sample_send. destruct (remote e); simpl; [eauto |].
  apply read_all_keeps with (s := s); assumption.
Qed.

(** ** The sample service, run *)

(** With the settings file of the sample machine and an override that only
    carries a token, the merged [auth] mapping is the override's: the [type]
    of the settings file is gone, the nested result is not what comes out,
    and the constructor then fails on the missing [type]. *)
Lemma merge_nested_auth_counterexample :
  disk (w_env (sample_world 2)) !! GLOBAL_SETTINGS_FILE =
    Some (Some (VDict {[ "auth" := VDict {[ "type" := VStr "basic";
                                            "token" := VStr "A" ]};
                         "x" := VInt 1 ]})) ∧
  (merge_settings (VDict {[ "auth" := VDict {[ "token" := VStr "B" ]} ]})
     (sample_world 2)).1 =
    Ok (VDict {[ "auth" := VDict {[ "token" := VStr "B" ]}; "x" := VInt 1 ]}) ∧
  (merge_settings (VDict {[ "auth" := VDict {[ "token" := VStr "B" ]} ]})
     (sample_world 2)).1 ≠
    Ok (VDict {[ "auth" := VDict {[ "type" := VStr "basic"; "token" := VStr "B" ]};
                 "x" := VInt 1 ]}) ∧
  (Client_init (VDict {[ "auth" := VDict {[ "token" := VStr "B" ]} ]})
     (sample_world 2)).1 = Raise (KeyError "type").
Proof.
  split; [vm_compute; reflexivity |].
  split; [vm_compute; reflexivity |].
  split; [| vm_compute; reflexivity].
  vm_compute. intros H. discriminate H.
Qed.

Lemma merge_settings_top_level_witness :
  disk (w_env (sample_world 2)) !! GLOBAL_SETTINGS_FILE =
    Some (Some (VDict sample_base)) ∧
  ∃ merged,
    (merge_settings (VDict sample_override) (sample_world 2)).1 = Ok (VDict merged) ∧
    (∀ k v, sample_override !! k = Some v → merged !! k = Some v) ∧
    (∀ k, sample_override !! k = None → merged !! k = sample_base !! k) ∧
    (∀ c w', Client_init (VDict sample_override) (sample_world 2) = (Ok c, w') →
             settings c = VDict merged).
Proof.
  split; [vm_compute; reflexivity |].
  apply (merge_settings_top_level sample_base sample_override (sample_world 2)).
  vm_compute. reflexivity.
Defined.


Lemma upload_file_returns_ticket_witness :
  sample_upload 2 = (Ok sample_ticket, (sample_upload 2).2) ∧
  ∃ fh w1 name e2 upload_url form rb e3,
    open_input (FromPath "a.txt") (sample_world 2) = (Ok fh, w1) ∧
    resolve_name None fh w1 = (Ok name, w1) ∧
    send_request (auth sample_client)
      (ticket_request name (resolve_mime None name)) (w_env w1) =
      (Ok sample_ticket, e2) ∧
    subscript sample_ticket "upload_url" = Ok upload_url ∧
    subscript sample_ticket "data" = Ok form ∧
    send_request (auth sample_client) (submit_request upload_url form fh) e2 =
      (Ok rb, e3).
Proof.
  split; [vm_compute; reflexivity |].
  apply (upload_file_returns_ticket sample_client (FromPath "a.txt") None None
           (sample_world 2) sample_ticket (sample_upload 2).2).
  vm_compute. reflexivity.
Defined.

Lemma upload_file_guess_is_pair_witness :
  open_input (FromPath "a.txt") (sample_world 2) =
    (Ok 0, (open_input (FromPath "a.txt") (sample_world 2)).2) ∧
  ∃ payload rest,
    sent (upload_file sample_client (FromPath "a.txt") None None (sample_world 2)).2 =
      sent (sample_world 2) ++ with_data UPLOAD_URL "POST" (VDict payload) :: rest ∧
    payload !! "file_name" = Some (VStr "a.txt") ∧
    payload !! "file_type" =
      Some (VTuple [opt_str (guess_type "a.txt").1; opt_str (guess_type "a.txt").2]).
Proof.
  split; [vm_compute; reflexivity |].
  apply (upload_file_guess_is_pair sample_client (FromPath "a.txt") None
           (sample_world 2) 0 (open_input (FromPath "a.txt") (sample_world 2)).2
           "a.txt"); vm_compute; reflexivity.
Defined.

Lemma upload_file_phase_A_failure_witness :
  send_request (auth sample_client)
    (ticket_request "a.txt" (resolve_mime None "a.txt"))
    (w_env (open_input (FromPath "a.txt") (sample_world 0)).2) =
    (Raise (RequestError 429 "quota"),
     w_env (open_input (FromPath "a.txt") (sample_world 0)).2) ∧
  upload_file sample_client (FromPath "a.txt") None None (sample_world 0) =
    (Raise (RequestError 429 "quota"),
     {| w_env := w_env (open_input (FromPath "a.txt") (sample_world 0)).2;
        sent := sent (sample_world 0) ++
                  [ticket_request "a.txt" (resolve_mime None "a.txt")] |}) ∧
  files (ticket_request "a.txt" (resolve_mime None "a.txt")) = None ∧
  streams (w_env (open_input (FromPath "a.txt") (sample_world 0)).2) =
    streams (w_env (open_input (FromPath "a.txt") (sample_world 0)).2).
Proof.
  split; [vm_compute; reflexivity |].
  apply (upload_file_phase_A_failure (service := sample_authenticator)
           sample_send_frame sample_client
           (FromPath "a.txt") None None (sample_world 0) 0
           (open_input (FromPath "a.txt") (sample_world 0)).2 "a.txt"
           (RequestError 429 "quota")
           (w_env (open_input (FromPath "a.txt") (sample_world 0)).2));
    vm_compute; reflexivity.
Defined.

Lemma init_selects_authenticator_witness :
  merge_settings VNone (sample_world 2) =
    (Ok (VDict sample_base), (merge_settings VNone (sample_world 2)).2) ∧
  Client_init VNone (sample_world 2) =
    (Ok {| settings := VDict sample_base;
           auth := BasicAuthenticator
                     (VDict {[ "type" := VStr "basic"; "token" := VStr "A" ]}) |},
     (merge_settings VNone (sample_world 2)).2).
Proof.
  split; [vm_compute; reflexivity |].
  apply (init_selects_authenticator VNone (sample_world 2) (VDict sample_base)
           (merge_settings VNone (sample_world 2)).2
           (VDict {[ "type" := VStr "basic"; "token" := VStr "A" ]})
           (VStr "basic")); vm_compute; reflexivity.
Defined.

(** Settings whose [auth] has no [type]: the [type] is neither ['basic'] nor
    ['oauth'], and what the constructor raises is [KeyError], not its
    invalid-scheme error. *)
Lemma init_missing_type_counterexample :
  (merge_settings (VDict sample_override) (sample_world 2)).1 =
    Ok (VDict {[ "auth" := VDict {[ "token" := VStr "B" ]}; "x" := VInt 1 ]}) ∧
  subscript (VDict {[ "token" := VStr "B" ]}) "type" ≠ Ok (VStr "basic") ∧
  subscript (VDict {[ "token" := VStr "B" ]}) "type" ≠ Ok (VStr "oauth") ∧
  (Client_init (VDict sample_override) (sample_world 2)).1 =
    Raise (KeyError "type") ∧
  (Client_init (VDict sample_override) (sample_world 2)).1 ≠
    Raise (Exception
      "Invalid authentication scheme given. Must be basic or oauth").
Proof.
  split; [vm_compute; reflexivity |].
  split; [vm_compute; intros H; discriminate H |].
  split; [vm_compute; intros H; discriminate H |].
  split; [vm_compute; reflexivity |].
  vm_compute. intros H. discriminate H.
Qed.

Lemma init_auth_type_outcome_witness :
  Client_init (VDict sample_override) (sample_world 2) =
    (Raise (KeyError "type"),
     (merge_settings (VDict sample_override) (sample_world 2)).2) ∧
  Client_init VNone (sample_world 2) =
    (Ok {| settings := VDict sample_base;
           auth := BasicAuthenticator (VDict sample_auth) |},
     (merge_settings VNone (sample_world 2)).2).
Proof.
  assert (merge_settings (VDict sample_override) (sample_world 2) =
          (Ok (VDict (sample_override ∪ sample_base)),
           (merge_settings (VDict sample_override) (sample_world 2)).2)) as Hm
    by (vm_compute; reflexivity).
  assert (merge_settings VNone (sample_world 2) =
          (Ok (VDict sample_base), (merge_settings VNone (sample_world 2)).2))
    as Hg by (vm_compute; reflexivity).
  assert (subscript (VDict sample_base) "auth" = Ok (VDict sample_auth)) as Ha
    by (vm_compute; reflexivity).
  assert (subscript (VDict sample_auth) "type" = Ok (VStr "basic")) as Ht
    by (vm_compute; reflexivity).
  split.
  - apply (proj1 (proj2 (proj2 (proj2 (init_auth_type_outcome _ _ _ _ Hm))))
             (sample_override ∪ sample_base) {[ "token" := VStr "B" ]}).
    + reflexivity.
    + vm_compute. reflexivity.
    + vm_compute. reflexivity.
  - apply (proj1 (proj2 (proj1 (proj2 (init_auth_type_outcome _ _ _ _ Hg))
                          (VDict sample_auth) (VStr "basic") Ha Ht))).
    reflexivity.
Defined.

(** An empty override on a machine without a settings file: an override was
    handed in, and the no-settings error is raised all the same. *)
Lemma init_empty_override_counterexample :
  disk (w_env bare_world) !! GLOBAL_SETTINGS_FILE = None ∧
  VDict ∅ ≠ VNone ∧
  (Client_init (VDict ∅) bare_world).1 = Raise (Exception "No settings given").
Proof.
  split; [vm_compute; reflexivity |].
  split; [discriminate | vm_compute; reflexivity].
Qed.

Lemma init_without_settings_witness :
  Client_init VNone bare_world = (Raise (Exception "No settings given"), bare_world) ∧
  (Client_init (VDict sample_override) bare_world).1 ≠
    Raise (Exception "No settings given").
Proof.
  split.
  - apply (proj1 (init_without_settings VNone bare_world)); vm_compute; reflexivity.
  - apply (proj2 (init_without_settings (VDict sample_override) bare_world)).
    right. vm_compute. reflexivity.
Defined.

Lemma deletes_return_none_witness :
  delete_device sample_client "d1" (sample_world 1) =
    (Ok VNone,
     {| w_env := {| disk := sample_disk; streams := []; remote := 0 |};
        sent := [bare (DEVICE_URL +:+ "/" +:+ "d1") "DELETE"] |}) ∧
  me sample_client (sample_world 1) =
    (Ok sample_ack,
     {| w_env := {| disk := sample_disk; streams := []; remote := 0 |};
        sent := [bare ME_URL "GET"] |}) ∧
  me sample_client (sample_world 0) =
    (Raise (RequestError 429 "quota"),
     {| w_env := {| disk := sample_disk; streams := []; remote := 0 |};
        sent := [bare ME_URL "GET"] |}).
Proof.
  destruct (deletes_return_none sample_client)
    as (Hdel & _ & _ & _ & _ & _ & _ & _ & _ & _ & _ & _ & Hme & _).
  split; [| split].
  - apply (proj2 (Hdel "d1" (sample_world 1)) sample_ack).
    vm_compute. reflexivity.
  - exact (Hme (sample_world 1)).
  - exact (Hme (sample_world 0)).
Defined.

(** C3. [upload_file] never closes the file object it opened from a path.
    On the sample machine the stream opened for ["a.txt"] is still open after
    a successful upload, after a failed submission and after a failed
    upload request. *)
Theorem upload_file_leaves_stream_open :
  ((sample_upload 2).1 = Ok sample_ticket ∧
   length (sent (sample_upload 2).2) = 2 ∧
   streams (w_env (sample_upload 2).2) =
     [{| s_name := Some "a.txt"; s_reads := 1; s_closed := false |}]) ∧
  ((sample_upload 1).1 = Raise (RequestError 429 "quota") ∧
   length (sent (sample_upload 1).2) = 2 ∧
   streams (w_env (sample_upload 1).2) =
     [{| s_name := Some "a.txt"; s_reads := 0; s_closed := false |}]) ∧
  ((sample_upload 0).1 = Raise (RequestError 429 "quota") ∧
   length (sent (sample_upload 0).2) = 1 ∧
   streams (w_env (sample_upload 0).2) =
     [{| s_name := Some "a.txt"; s_reads := 0; s_closed := false |}]).
Proof. vm_compute. repeat split. Qed.

(** A file object the caller handed in is left open as well, as
    [upload_file_steady] says of every service that closes nothing itself. *)
Example upload_file_leaves_callers_stream_open :
  (sample_upload_open 2).1 = Ok sample_ticket ∧
  streams (w_env (sample_upload_open 2).2) =
    [{| s_name := Some "a.txt"; s_reads := 1; s_closed := false |}].
Proof. vm_compute. split; reflexivity. Qed.

(** ** Further facts: loading and construction *)

Section MoreFacts.

Context {service : Authenticator} {platform : Platform}.

Implicit Types (w : world service_state) (e : env service_state).

Lemma alter_last {A} (f : A → A) (l : list A) (x : A) :
  alter f (length l) (l ++ [x]) = l ++ [f x].
Proof.
  rewrite alter_app_r_alt by lia. rewrite Nat.sub_diag. reflexivity.
Qed.

(** X1. [_load_config] on a path that exists opens it once, reads it once
    and has closed it on return, whether the contents parse (the parsed
    value is returned) or not ([ValueError]).  The path is the argument, or
    the global settings file when the argument is [None] or empty. *)
Theorem load_config_reads_and_closes settings_arg p c w :
  (if truthy settings_arg then settings_arg else VStr GLOBAL_SETTINGS_FILE) = VStr p →
  disk (w_env w) !! p = Some c →
  _load_config settings_arg w =
    (match c with Some v => Ok v | None => Raise ValueError end,
     set_streams (streams (w_env w) ++
                  [{| s_name := Some p; s_reads := 1; s_closed := true |}]) w).
Proof.
  intros Hp Hd. unfold _load_config. rewrite Hp.
  unfold bind, open_file. rewrite Hd.
  unfold with_closing, json_load, close_file, set_streams. simpl.
  rewrite lookup_app_r, Nat.sub_diag by lia. simpl. rewrite Hd.
  destruct c; simpl; rewrite !alter_last; reflexivity.
Qed.

(** X2. [_load_config] on a path that does not exist raises [IOError] and
    leaves the world as it was: no file object is created. *)
Theorem load_config_missing_file settings_arg p w :
  (if truthy settings_arg then settings_arg else VStr GLOBAL_SETTINGS_FILE) = VStr p →
  disk (w_env w) !! p = None →
  _load_config settings_arg w = (Raise (IOError p), w).
Proof.
  intros Hp Hd. unfold _load_config. rewrite Hp.
  unfold bind, open_file. rewrite Hd. reflexivity.
Qed.

(** X3. The constructor makes no call, whatever it is given and however it
    ends: the record of calls, the service state and the disk are as before. *)
Theorem init_is_quiet settings_arg w :
  quiet w (Client_init settings_arg w).2.
Proof.
  destruct (Client_init settings_arg w) as [r w'] eqn:E. simpl.
  unfold Client_init in E.
  apply bind_inv in E as [(m & w1 & Hm & Hs) | (x & Hm & _)].
  - apply merge_settings_outcome in Hm as [Hq _].
    apply select_auth_outcome in Hs as (-> & _). exact Hq.
  - apply merge_settings_outcome in Hm as [Hq _]. exact Hq.
Qed.

Lemma tidy_ret {A} (a : A) : tidy 0 (ret a).
Proof.
  intros w r w' H. unfold ret in H. inversion H; subst.
  exists []. rewrite app_nil_r. auto.
Qed.

Lemma tidy_raise {A} (x : exn) : tidy 0 (raise (A := A) x).
Proof.
  intros w r w' H. unfold raise in H. inversion H; subst.
  exists []. rewrite app_nil_r. auto.
Qed.

Lemma tidy_lift {A} (r : res A) : tidy 0 (lift r).
Proof.
  intros w r0 w' H. unfold lift in H. inversion H; subst.
  exists []. rewrite app_nil_r. auto.
Qed.

Lemma tidy_path_exists p : tidy 0 (path_exists p).
Proof.
  intros w r w' H. unfold path_exists in H. inversion H; subst.
  exists []. rewrite app_nil_r. auto.
Qed.

Lemma tidy_weaken {A} n n' (m : M A) : (n ≤ n')%nat → tidy n m → tidy n' m.
Proof.
  intros Hle Hm w r w' H. destruct (Hm w r w' H) as (o & Hs & Hc & Hl).
  exists o. repeat split; [assumption | assumption | lia].
Qed.

Lemma tidy_bind {A B} n k (m : M A) (f : A → M B) :
  tidy n m → (∀ a, tidy k (f a)) → tidy (n + k) (bind m f).
Proof.
  intros Hm Hf w r w' H.
  apply bind_inv in H as [(a & w1 & H1 & H2) | (x & H1 & ->)].
  - destruct (Hm _ _ _ H1) as (o1 & Hs1 & Hc1 & Hl1).
    destruct (Hf a _ _ _ H2) as (o2 & Hs2 & Hc2 & Hl2).
    exists (o1 ++ o2). rewrite Hs2, Hs1, app_assoc.
    split; [reflexivity |]. split; [apply Forall_app; auto |].
    rewrite length_app. lia.
  - destruct (Hm _ _ _ H1) as (o1 & Hs1 & Hc1 & Hl1).
    exists o1. repeat split; [assumption | assumption | lia].
Qed.

Lemma tidy_load_config settings_arg : tidy 1 (_load_config settings_arg).
Proof.
  intros w r w' H.
  destruct (if truthy settings_arg then settings_arg
            else VStr GLOBAL_SETTINGS_FILE) as [| | |p| | |] eqn:Hp;
    try (unfold _load_config in H; rewrite Hp in H;
         apply (tidy_weaken 0 1 _ (Nat.le_0_l 1) (tidy_raise TypeError) w r w' H)).
  destruct (disk (w_env w) !! p) as [c|] eqn:Hd.
  - rewrite (load_config_reads_and_closes _ _ _ _ Hp Hd) in H.
    inversion H; subst. eexists [_]. simpl. split; [reflexivity |].
    split; [| lia]. apply Forall_singleton. reflexivity.
  - rewrite (load_config_missing_file _ _ _ Hp Hd) in H. inversion H; subst.
    exists []. rewrite app_nil_r. simpl. split; [reflexivity |].
    split; [constructor | lia].
Qed.

(** X4. The constructor leaves no file open: it opens at most two file
    objects (the global settings file and an override named by path), leaves
    every file object that was there before untouched, and has closed its own
    on every exit. *)
Theorem init_closes_its_files settings_arg : tidy 2 (Client_init settings_arg).
Proof.
  unfold Client_init. apply (tidy_bind 2 0).
  - unfold merge_settings. apply (tidy_bind 0 2); [apply tidy_path_exists |].
    intros present. destruct (negb present && negb (truthy settings_arg)).
    { apply (tidy_weaken 0); [lia | apply tidy_raise]. }
    apply (tidy_bind 0 2); [apply tidy_path_exists |]. intros ex.
    apply (tidy_bind 1 1).
    { destruct ex; [apply tidy_load_config |].
      apply (tidy_weaken 0); [lia | apply tidy_ret]. }
    intros base. destruct (truthy settings_arg).
    + apply (tidy_bind 1 0); [| intros o; apply tidy_lift].
      destruct settings_arg; try (apply (tidy_weaken 0); [lia | apply tidy_ret]).
      apply tidy_load_config.
    + apply (tidy_weaken 0); [lia | apply tidy_ret].
  - intros merged w r w' H. apply select_auth_outcome in H as (-> & _).
    exists []. rewrite app_nil_r. auto.
Qed.

Lemma eq_str_true v lit : eq_str v lit = true → v = VStr lit.
Proof.
  destruct v; simpl; try discriminate. intros H.
  apply String.eqb_eq in H. congruence.
Qed.

(** X5. Every client the constructor returns is well formed: its settings
    have an [auth] mapping whose [type] is ['basic'] or ['oauth'], and its
    authenticator is the variant of that name built from that mapping. *)
Theorem init_ok_invariant settings_arg w c w' :
  Client_init settings_arg w = (Ok c, w') →
  ∃ a, subscript (settings c) "auth" = Ok a ∧
       ((subscript a "type" = Ok (VStr "basic") ∧ auth c = BasicAuthenticator a) ∨
        (subscript a "type" = Ok (VStr "oauth") ∧ auth c = OAuthAuthenticator a)).
Proof.
  intros H. unfold Client_init in H.
  apply bind_ok in H as (merged & w1 & _ & H).
  unfold select_auth in H.
  apply bind_ok in H as (a & w2 & Ha & H). apply lift_ok in Ha as [Ha ->].
  apply bind_ok in H as (t & w3 & Ht & H). apply lift_ok in Ht as [Ht ->].
  destruct (eq_str t "basic") eqn:Eb; [| destruct (eq_str t "oauth") eqn:Eo].
  - apply ret_ok in H as [-> _]. apply eq_str_true in Eb as ->.
    exists a. simpl. auto.
  - apply ret_ok in H as [-> _]. apply eq_str_true in Eo as ->.
    exists a. simpl. auto.
  - unfold raise in H. discriminate H.
Qed.

(** X6. On a machine without a global settings file, a non-empty override
    mapping is the whole of the settings: nothing is read from disk, no file
    object is created, and the constructor goes on to select the
    authenticator from the override alone. *)
Theorem init_override_only override w :
  disk (w_env w) !! GLOBAL_SETTINGS_FILE = None →
  override ≠ ∅ →
  merge_settings (VDict override) w = (Ok (VDict override), w) ∧
  Client_init (VDict override) w = select_auth (VDict override) w.
Proof.
  intros Hd Hne.
  assert (merge_settings (VDict override) w = (Ok (VDict override), w)) as Hm.
  { assert (bool_decide (is_Some (disk (w_env w) !! GLOBAL_SETTINGS_FILE)) = false)
      as Hex by (apply bool_decide_eq_false_2; rewrite Hd; intros [? ?]; discriminate).
    assert (bool_decide (override = ∅) = false) as Hov
      by (apply bool_decide_eq_false_2; exact Hne).
    unfold merge_settings, bind, path_exists. rewrite Hex. simpl.
    rewrite Hov. simpl. rewrite ?Hex.
    unfold ret, lift. simpl. rewrite (right_id_L ∅ (∪)). reflexivity. }
  split; [exact Hm |]. unfold Client_init, bind. rewrite Hm. reflexivity.
Qed.

(** X7. With a global settings file and an override that is absent or
    empty, the settings are what the global file holds, whatever JSON value
    that is. *)
Theorem init_global_only settings_arg v w :
  disk (w_env w) !! GLOBAL_SETTINGS_FILE = Some (Some v) →
  truthy settings_arg = false →
  (merge_settings settings_arg w).1 = Ok v.
Proof.
  intros Hd Ht.
  assert (bool_decide (is_Some (disk (w_env w) !! GLOBAL_SETTINGS_FILE)) = true)
    as Hex by (apply bool_decide_eq_true_2; rewrite Hd; eauto).
  unfold merge_settings, bind, path_exists. rewrite Hex, Ht. simpl. rewrite Hex.
  rewrite (load_config_reads_and_closes VNone GLOBAL_SETTINGS_FILE (Some v) w
             eq_refl Hd).
  reflexivity.
Qed.

(** X8. An override given as a path is loaded from that path and merged over
    the global settings like an override mapping: the keys of the named file
    win, the other keys of the global file stay. *)
Theorem init_override_path p base override w :
  p ≠ "" →
  disk (w_env w) !! GLOBAL_SETTINGS_FILE = Some (Some (VDict base)) →
  disk (w_env w) !! p = Some (Some (VDict override)) →
  (merge_settings (VStr p) w).1 = Ok (VDict (override ∪ base)).
Proof.
  intros Hp Hd Ho.
  assert (bool_decide (is_Some (disk (w_env w) !! GLOBAL_SETTINGS_FILE)) = true)
    as Hex by (apply bool_decide_eq_true_2; rewrite Hd; eauto).
  assert (truthy (VStr p) = true) as Ht.
  { simpl. apply negb_true_iff, String.eqb_neq. exact Hp. }
  unfold merge_settings, bind, path_exists. rewrite Hex, Ht. simpl. rewrite Hex.
  rewrite (load_config_reads_and_closes VNone GLOBAL_SETTINGS_FILE _ w eq_refl Hd).
  assert ((if truthy (VStr p) then VStr p else VStr GLOBAL_SETTINGS_FILE) = VStr p)
    as Hsel by (rewrite Ht; reflexivity).
  rewrite (load_config_reads_and_closes (VStr p) p (Some (VDict override))
             (set_streams _ w) Hsel Ho).
  reflexivity.
Qed.

(** X9. A global settings file that exists but is not JSON makes the
    constructor raise [ValueError], whatever override is given: the global
    file is read before the override is looked at.  The one file object
    opened for it is closed. *)
Theorem init_corrupt_global settings_arg w :
  disk (w_env w) !! GLOBAL_SETTINGS_FILE = Some None →
  Client_init settings_arg w =
    (Raise ValueError,
     set_streams (streams (w_env w) ++
                  [{| s_name := Some GLOBAL_SETTINGS_FILE; s_reads := 1;
                      s_closed := true |}]) w).
Proof.
  intros Hd.
  assert (bool_decide (is_Some (disk (w_env w) !! GLOBAL_SETTINGS_FILE)) = true)
    as Hex by (apply bool_decide_eq_true_2; rewrite Hd; eauto).
  unfold Client_init, merge_settings, bind, path_exists. rewrite Hex. simpl.
  rewrite Hex.
  rewrite (load_config_reads_and_closes VNone GLOBAL_SETTINGS_FILE None w
             eq_refl Hd).
  reflexivity.
Qed.

Lemma init_selects_authenticator_aux settings_arg w merged w1 a :
  merge_settings settings_arg w = (Ok merged, w1) →
  subscript merged "auth" = Ok a →
  (subscript a "type" = Ok (VStr "basic") →
   Client_init settings_arg w =
     (Ok {| settings := merged; auth := BasicAuthenticator a |}, w1)) ∧
  (subscript a "type" = Ok (VStr "oauth") →
   Client_init settings_arg w =
     (Ok {| settings := merged; auth := OAuthAuthenticator a |}, w1)).
Proof.
  intros Hm Ha.
  split; intros Ht; unfold Client_init, bind; rewrite Hm;
    unfold select_auth, bind, lift; rewrite Ha, Ht; reflexivity.
Qed.

(** X10. With a global settings file, the authenticator is built from one
    [auth] mapping only: the override's when the override has an [auth] key,
    the global file's otherwise.  When that mapping names ['basic'] or
    ['oauth'] construction succeeds with the merged settings. *)
Theorem init_auth_source base override a w :
  disk (w_env w) !! GLOBAL_SETTINGS_FILE = Some (Some (VDict base)) →
  match override !! "auth" with
  | Some o => Some o
  | None => base !! "auth"
  end = Some a →
  (subscript a "type" = Ok (VStr "basic") →
   (Client_init (VDict override) w).1 =
     Ok {| settings := VDict (override ∪ base); auth := BasicAuthenticator a |}) ∧
  (subscript a "type" = Ok (VStr "oauth") →
   (Client_init (VDict override) w).1 =
     Ok {| settings := VDict (override ∪ base); auth := OAuthAuthenticator a |}).
Proof.
  intros Hd Ha.
  pose proof (merge_settings_union base override w Hd) as Hm.
  assert (subscript (VDict (override ∪ base)) "auth" = Ok a) as Hsub.
  { simpl. rewrite lookup_union. destruct (override !! "auth") as [o|].
    - inversion Ha; subst. destruct (base !! "auth"); reflexivity.
    - rewrite Ha. reflexivity. }
  destruct (merge_settings (VDict override) w) as [r w1] eqn:E. simpl in Hm. subst r.
  destruct (init_selects_authenticator_aux _ _ _ _ _ E Hsub) as [Hb Ho].
  split; intros Ht.
  - rewrite (Hb Ht). reflexivity.
  - rewrite (Ho Ht). reflexivity.
Qed.

(** ** Further facts: the methods *)

Lemma forwards_call self r : forwards self (call self r) r.
Proof.
  intros w. split; [apply call_sent |].
  intros x e H. unfold call. rewrite H. reflexivity.
Qed.

Lemma forwards_call_then self r (k : value → M value) :
  (∀ a w, (k a w).2 = w) →
  forwards self (bind (call self r) k) r.
Proof.
  intros Hk w. unfold bind, call.
  destruct (send_request (auth self) r (w_env w)) as [[resp|x] e]; simpl.
  - split; [rewrite Hk; reflexivity | intros x e0 H; discriminate H].
  - split; [reflexivity |]. intros x0 e0 H. inversion H; subst. reflexivity.
Qed.

Lemma plain_bare path m : plain (bare (BASE_URL +:+ path) m).
Proof. repeat split. exists path. reflexivity. Qed.

Lemma plain_with_data path m d : plain (with_data (BASE_URL +:+ path) m d).
Proof. repeat split. exists path. reflexivity. Qed.

(** X11. Every method other than [upload_file] makes exactly one call,
    whether that call succeeds or raises, and an error of the call comes out
    of the method unchanged.  The call goes below [BASE_URL], authenticated
    and without attachments, with the method shown. *)
Theorem methods_make_one_call self :
  (∃ r, forwards self (devices self) r ∧ plain r ∧ method r = "GET") ∧
  (∀ name ty, ∃ r, forwards self (create_device self name ty) r ∧
                   plain r ∧ method r = "POST") ∧
  (∀ iden kw, ∃ r, forwards self (update_device self iden kw) r ∧
                   plain r ∧ method r = "POST") ∧
  (∀ iden, ∃ r, forwards self (delete_device self iden) r ∧
                plain r ∧ method r = "DELETE") ∧
  (∀ ty kw, ∃ r, forwards self (push self ty kw) r ∧
                 plain r ∧ method r = "POST") ∧
  (∀ ts, ∃ r, forwards self (push_history self ts) r ∧
              plain r ∧ method r = "GET") ∧
  (∀ iden, ∃ r, forwards self (dismiss_push self iden) r ∧
                plain r ∧ method r = "POST") ∧
  (∀ iden, ∃ r, forwards self (delete_push self iden) r ∧
                plain r ∧ method r = "DELETE") ∧
  (∃ r, forwards self (contacts self) r ∧ plain r ∧ method r = "GET") ∧
  (∀ name email, ∃ r, forwards self (create_contact self name email) r ∧
                      plain r ∧ method r = "POST") ∧
  (∀ iden kw, ∃ r, forwards self (update_contact self iden kw) r ∧
                   plain r ∧ method r = "POST") ∧
  (∀ iden, ∃ r, forwards self (delete_contact self iden) r ∧
                plain r ∧ method r = "DELETE") ∧
  (∃ r, forwards self (me self) r ∧ plain r ∧ method r = "GET") ∧
  (∀ kw, ∃ r, forwards self (update_me self kw) r ∧ plain r ∧ method r = "POST").
Proof.
  unfold devices, create_device, update_device, delete_device, push,
    push_history, dismiss_push, delete_push, contacts, create_contact,
    update_contact, delete_contact, me, update_me.
  repeat apply conj; intros; eexists;
    (split;
     [ first [ apply forwards_call
             | apply forwards_call_then; intros; reflexivity ]
     | split; [| reflexivity] ]).
  - apply (plain_bare "/devices").
  - apply (plain_with_data "/devices").
  - apply (plain_with_data ("/devices/" +:+ iden)).
  - apply (plain_bare ("/devices/" +:+ iden)).
  - apply (plain_with_data "/pushes").
  - repeat split. exists "/pushes". reflexivity.
  - apply (plain_with_data ("/pushes/" +:+ iden)).
  - apply (plain_bare ("/pushes/" +:+ iden)).
  - apply (plain_bare "/contacts").
  - apply (plain_with_data "/contacts").
  - apply (plain_with_data ("/contacts/" +:+ iden)).
  - apply (plain_bare ("/contacts/" +:+ iden)).
  - apply (plain_bare "/users/me").
  - repeat split. exists "/users/me". reflexivity.
Qed.

(** X12. [devices] and [push_history] pick one field out of the answer
    after the call has been made: an answer that is a mapping without the
    field raises [KeyError] for it, an answer that is no mapping raises
    [TypeError], and in both cases the call stays recorded. *)
Theorem listing_needs_its_field self w :
  (∀ resp e,
     send_request (auth self) (bare DEVICE_URL "GET") (w_env w) = (Ok resp, e) →
     (∀ d, resp = VDict d → d !! "devices" = None →
        devices self w =
          (Raise (KeyError "devices"),
           {| w_env := e; sent := sent w ++ [bare DEVICE_URL "GET"] |})) ∧
     ((∀ d, resp ≠ VDict d) →
        devices self w =
          (Raise TypeError,
           {| w_env := e; sent := sent w ++ [bare DEVICE_URL "GET"] |}))) ∧
  (∀ ts resp e r,
     r = {| url := VStr PUSH_URL; method := "GET"; headers := None;
            params := Some (VDict {[ "modified_after" := ts ]});
            data := None; files := None; skip_auth := false |} →
     send_request (auth self) r (w_env w) = (Ok resp, e) →
     (∀ d, resp = VDict d → d !! "pushes" = None →
        push_history self ts w =
          (Raise (KeyError "pushes"), {| w_env := e; sent := sent w ++ [r] |})) ∧
     ((∀ d, resp ≠ VDict d) →
        push_history self ts w =
          (Raise TypeError, {| w_env := e; sent := sent w ++ [r] |}))).
Proof.
  split.
  - intros resp e Hs. split.
    + intros d -> Hd. unfold devices, bind, call. rewrite Hs.
      unfold lift. simpl. rewrite Hd. reflexivity.
    + intros Hnd. unfold devices, bind, call. rewrite Hs. unfold lift.
      destruct resp; try reflexivity. exfalso. eapply Hnd. reflexivity.
  - intros ts resp e r -> Hs. split.
    + intros d -> Hd. unfold push_history, bind, call. rewrite Hs.
      unfold lift. simpl. rewrite Hd. reflexivity.
    + intros Hnd. unfold push_history, bind, call. rewrite Hs. unfold lift.
      destruct resp; try reflexivity. exfalso. eapply Hnd. reflexivity.
Qed.

(** X13. When the answer to the upload request lacks [upload_url], or has it
    and lacks [data], [upload_file] raises the lookup error with only the
    upload request recorded: nothing is submitted. *)
Theorem upload_file_bad_ticket self inputfile filename file_type w
    fh w1 name resp e2 x :
  open_input inputfile w = (Ok fh, w1) →
  resolve_name filename fh w1 = (Ok name, w1) →
  send_request (auth self)
    (ticket_request name (resolve_mime file_type name)) (w_env w1) = (Ok resp, e2) →
  subscript resp "upload_url" = Raise x ∨
  (∃ u, subscript resp "upload_url" = Ok u ∧ subscript resp "data" = Raise x) →
  upload_file self inputfile filename file_type w =
    (Raise x, {| w_env := e2;
                 sent := sent w ++
                           [ticket_request name (resolve_mime file_type name)] |}).
Proof.
  intros Ho Hn Ha Hx. destruct (open_input_inv _ _ _ _ Ho) as [Hs _].
  unfold upload_file, bind. rewrite Ho, Hn. unfold call. rewrite Ha.
  unfold lift. destruct Hx as [Hu | (u & Hu & Hd)]; rewrite Hu; [| rewrite Hd];
    rewrite Hs; reflexivity.
Qed.

(** X14. When the submission raises, [upload_file] raises the same error
    after both calls: the ticket it obtained is not handed to the caller. *)
Theorem upload_file_phase_B_failure self inputfile filename file_type w
    fh w1 name resp e2 u form x e3 :
  open_input inputfile w = (Ok fh, w1) →
  resolve_name filename fh w1 = (Ok name, w1) →
  send_request (auth self)
    (ticket_request name (resolve_mime file_type name)) (w_env w1) = (Ok resp, e2) →
  subscript resp "upload_url" = Ok u →
  subscript resp "data" = Ok form →
  send_request (auth self) (submit_request u form fh) e2 = (Raise x, e3) →
  upload_file self inputfile filename file_type w =
    (Raise x, {| w_env := e3;
                 sent := sent w ++
                           [ticket_request name (resolve_mime file_type name);
                            submit_request u form fh] |}).
Proof.
  intros Ho Hn Ha Hu Hd Hb. destruct (open_input_inv _ _ _ _ Ho) as [Hs _].
  unfold upload_file, bind. rewrite Ho, Hn. unfold call at 1. rewrite Ha.
  unfold lift. rewrite Hu, Hd. unfold call. simpl. rewrite Hb.
  rewrite Hs, <- app_assoc. reflexivity.
Qed.

(** X15. [upload_file] on a path that does not exist raises [IOError] and
    leaves the world as it was, whatever name and type are given. *)
Theorem upload_file_missing_path self p filename file_type w :
  disk (w_env w) !! p = None →
  upload_file self (FromPath p) filename file_type w = (Raise (IOError p), w).
Proof.
  intros Hd. unfold upload_file, bind. simpl. unfold open_file. rewrite Hd.
  reflexivity.
Qed.

(** X16. [upload_file] on a file object without a [name], with no file
    name (or an empty one) given, raises [AttributeError] before any call. *)
Theorem upload_file_nameless self h filename file_type w :
  streams (w_env w) !! h ≫= s_name = None →
  filename = None ∨ filename = Some "" →
  upload_file self (OpenFile h) filename file_type w =
    (Raise (AttributeError "name"), w).
Proof.
  intros Hn Hf. unfold upload_file, bind. simpl. unfold ret at 1.
  unfold resolve_name.
  assert (given filename = None) as -> by (destruct Hf as [-> | ->]; reflexivity).
  unfold get_name. rewrite Hn. reflexivity.
Qed.

(** X17. When the input is a path and no file name (or an empty one) is
    given, the [file_name] sent is the path exactly as the caller wrote it. *)
Theorem upload_file_sends_path_as_name self p c filename file_type w :
  disk (w_env w) !! p = Some c →
  filename = None ∨ filename = Some "" →
  ∃ payload rest,
    sent (upload_file self (FromPath p) filename file_type w).2 =
      sent w ++ with_data UPLOAD_URL "POST" (VDict payload) :: rest ∧
    payload !! "file_name" = Some (VStr p).
Proof.
  intros Hd Hf.
  assert (given filename = None) as Hg by (destruct Hf as [-> | ->]; reflexivity).
  pose (w1 := set_streams
                (streams (w_env w) ++
                 [{| s_name := Some p; s_reads := 0; s_closed := false |}]) w).
  assert (open_input (FromPath p) w = (Ok (length (streams (w_env w))), w1)) as Ho.
  { simpl. unfold open_file. rewrite Hd. reflexivity. }
  assert (resolve_name filename (length (streams (w_env w))) w1 = (Ok p, w1)) as Hn.
  { unfold resolve_name. rewrite Hg. unfold get_name. simpl.
    rewrite lookup_app_r, Nat.sub_diag by lia. reflexivity. }
  destruct (upload_file_first_call self _ _ file_type _ _ _ _ Ho Hn) as [rest Hs].
  eexists _, rest. split; [exact Hs |]. apply lookup_insert_eq.
Qed.

(** X18. A file name and a type that are given and not empty are sent as
    they are, for a path and for a file object alike: neither the name of the
    file object nor the type guess is consulted. *)
Theorem upload_file_sends_given_name_and_type self inputfile f t w fh w1 :
  open_input inputfile w = (Ok fh, w1) →
  f ≠ "" → t ≠ "" →
  ∃ rest,
    sent (upload_file self inputfile (Some f) (Some t) w).2 =
      sent w ++
        with_data UPLOAD_URL "POST"
          (VDict {[ "file_name" := VStr f; "file_type" := VStr t ]}) :: rest.
Proof.
  intros Ho Hf Ht.
  assert (resolve_name (Some f) fh w1 = (Ok f, w1)) as Hn.
  { unfold resolve_name. simpl. apply String.eqb_neq in Hf. rewrite Hf.
    reflexivity. }
  destruct (upload_file_first_call self _ _ (Some t) _ _ _ _ Ho Hn) as [rest Hs].
  exists rest. rewrite Hs. unfold resolve_mime. simpl.
  apply String.eqb_neq in Ht. rewrite Ht. reflexivity.
Qed.

(** X19. [upload_file] closes no file object: given an authenticator that
    closes none, every file object open before the call, the caller's own
    included, is open after it, however the call ends. *)
Theorem upload_file_closes_nothing self inputfile filename file_type w :
  (∀ a r e, keeps_open e (send_request a r e).2) →
  keeps_open (w_env w) (w_env (upload_file self inputfile filename file_type w).2).
Proof.
  intros Hk. apply (upload_file_steady Hk).
Qed.

(** X20. [upload_file] hands a file object to the authenticator only in its
    second call, and only the one it uploads: given an authenticator that
    touches just the file objects it is handed, every other file object is
    after the call as the opening of the input left it. *)
Theorem upload_file_touches_one_stream self inputfile filename file_type w fh w1 :
  (∀ a r e h, ¬ attached r h →
              streams (send_request a r e).2 !! h = streams e !! h) →
  open_input inputfile w = (Ok fh, w1) →
  ∀ h, h ≠ fh →
       streams (w_env (upload_file self inputfile filename file_type w).2) !! h =
       streams (w_env w1) !! h.
Proof.
  intros Hframe Ho h Hh. unfold upload_file, bind. rewrite Ho.
  destruct (resolve_name filename fh w1) as [[name|x] w2] eqn:Hn;
    pose proof (resolve_name_inv _ _ _ _ _ Hn) as ->; [| reflexivity].
  assert (∀ r e, (∀ d k, files r = Some d → d !! k = Some h → False) →
                 streams (send_request (auth self) r e).2 !! h = streams e !! h)
    as Hstep.
  { intros r e Hnot. apply Hframe. intros (d & k & Hd & Hk). eauto. }
  unfold call at 1.
  pose proof (Hstep (ticket_request name (resolve_mime file_type name)) (w_env w1))
    as HA.
  destruct (send_request (auth self) _ (w_env w1)) as [[resp|x] e2]; simpl in HA.
  2: { simpl. apply HA. intros d k Hd. discriminate Hd. }
  unfold lift.
  destruct (subscript resp "upload_url") as [u|x]; simpl.
  2: { apply HA. intros d k Hd. discriminate Hd. }
  destruct (subscript resp "data") as [form|x]; simpl.
  2: { apply HA. intros d k Hd. discriminate Hd. }
  unfold call, ret. simpl.
  pose proof (Hstep (submit_request u form fh) e2) as HB.
  destruct (send_request (auth self) (submit_request u form fh) e2)
    as [[rb|x] e3]; unfold ret; simpl in *;
    (rewrite HB;
     [ apply HA; intros d k Hd; discriminate Hd
     | intros d k Hd Hk; inversion Hd; subst d;
       apply lookup_singleton_Some in Hk as [_ Hk]; congruence ]).
Qed.

End MoreFacts.

(** ** The further facts on the sample machines *)

Lemma load_config_reads_and_closes_witness :
  _load_config VNone (sample_world 2) =
    (Ok (VDict sample_base),
     set_streams [{| s_name := Some rc; s_reads := 1; s_closed := true |}]
       (sample_world 2)).
Proof.
  apply (load_config_reads_and_closes VNone rc (Some (VDict sample_base))
           (sample_world 2)); vm_compute; reflexivity.
Defined.

Lemma load_config_missing_file_witness :
  _load_config VNone bare_world = (Raise (IOError rc), bare_world).
Proof.
  apply (load_config_missing_file VNone rc bare_world); vm_compute; reflexivity.
Defined.

Lemma init_closes_its_files_witness :
  ∃ opened,
    streams (w_env (Client_init (VStr other_rc) two_file_world).2) =
      streams (w_env two_file_world) ++ opened ∧
    Forall (λ s, s_closed s = true) opened ∧
    (length opened ≤ 2)%nat.
Proof.
  apply (init_closes_its_files (VStr other_rc) two_file_world
           (Client_init (VStr other_rc) two_file_world).1
           (Client_init (VStr other_rc) two_file_world).2).
  vm_compute. reflexivity.
Defined.

Lemma init_ok_invariant_witness :
  ∃ a, subscript (VDict sample_base) "auth" = Ok a ∧
       ((subscript a "type" = Ok (VStr "basic") ∧
         auth sample_client = BasicAuthenticator a) ∨
        (subscript a "type" = Ok (VStr "oauth") ∧
         auth sample_client = OAuthAuthenticator a)).
Proof.
  apply (init_ok_invariant VNone (sample_world 2) sample_client
           (Client_init VNone (sample_world 2)).2).
  vm_compute. reflexivity.
Defined.

Lemma sample_override_not_empty : sample_override ≠ ∅.
Proof. vm_compute. intros H. discriminate H. Qed.

Lemma init_override_only_witness :
  merge_settings (VDict sample_override) bare_world =
    (Ok (VDict sample_override), bare_world) ∧
  Client_init (VDict sample_override) bare_world =
    select_auth (VDict sample_override) bare_world.
Proof.
  apply (init_override_only sample_override bare_world).
  - vm_compute. reflexivity.
  - exact sample_override_not_empty.
Defined.

Lemma init_global_only_witness :
  (merge_settings (VDict ∅) (sample_world 2)).1 = Ok (VDict sample_base).
Proof.
  apply (init_global_only (VDict ∅) (VDict sample_base) (sample_world 2));
    vm_compute; reflexivity.
Defined.

Lemma other_rc_not_empty : other_rc ≠ "".
Proof. discriminate. Qed.

Lemma init_override_path_witness :
  (merge_settings (VStr other_rc) two_file_world).1 =
    Ok (VDict (other_settings ∪ sample_base)).
Proof.
  apply (init_override_path other_rc sample_base other_settings two_file_world).
  - exact other_rc_not_empty.
  - vm_compute. reflexivity.
  - vm_compute. reflexivity.
Defined.

Lemma init_corrupt_global_witness :
  Client_init (VDict sample_base) corrupt_world =
    (Raise ValueError,
     set_streams [{| s_name := Some rc; s_reads := 1; s_closed := true |}]
       corrupt_world).
Proof.
  assert (disk (w_env corrupt_world) !! GLOBAL_SETTINGS_FILE = Some None) as Hd
    by (vm_compute; reflexivity).
  exact (init_corrupt_global (VDict sample_base) corrupt_world Hd).
Defined.

Lemma init_auth_source_witness :
  (Client_init (VDict side_override) (sample_world 2)).1 =
    Ok {| settings := VDict (side_override ∪ sample_base);
          auth := BasicAuthenticator
                    (VDict {[ "type" := VStr "basic"; "token" := VStr "A" ]}) |}.
Proof.
  assert (disk (w_env (sample_world 2)) !! GLOBAL_SETTINGS_FILE =
          Some (Some (VDict sample_base))) as Hd by (vm_compute; reflexivity).
  assert (match side_override !! "auth" with
          | Some o => Some o
          | None => sample_base !! "auth"
          end = Some (VDict {[ "type" := VStr "basic"; "token" := VStr "A" ]}))
    as Ha by (vm_compute; reflexivity).
  apply (proj1 (init_auth_source sample_base side_override
                  (VDict {[ "type" := VStr "basic"; "token" := VStr "A" ]})
                  (sample_world 2) Hd Ha)).
  vm_compute. reflexivity.
Defined.

Lemma listing_needs_its_field_witness :
  devices sample_client (sample_world 1) =
    (Raise (KeyError "devices"),
     {| w_env := {| disk := sample_disk; streams := []; remote := 0 |};
        sent := [bare DEVICE_URL "GET"] |}).
Proof.
  assert (send_request (auth sample_client) (bare DEVICE_URL "GET")
            (w_env (sample_world 1)) =
          (Ok sample_ack, {| disk := sample_disk; streams := []; remote := 0 |}))
    as Hs by (vm_compute; reflexivity).
  apply (proj1 (proj1 (listing_needs_its_field sample_client (sample_world 1))
                  sample_ack
                  {| disk := sample_disk; streams := []; remote := 0 |} Hs)
           {[ "ok" := VBool true ]}).
  - reflexivity.
  - vm_compute. reflexivity.
Defined.

Lemma upload_file_bad_ticket_witness :
  upload_file (service := terse_authenticator) sample_client (FromPath "a.txt")
    None None terse_world =
    (Raise (KeyError "data"),
     {| w_env := w_env (open_input (service := terse_authenticator)
                          (FromPath "a.txt") terse_world).2;
        sent := [ticket_request "a.txt" (resolve_mime None "a.txt")] |}).
Proof.
  apply (upload_file_bad_ticket (service := terse_authenticator) sample_client
           (FromPath "a.txt") None None terse_world 0
           (open_input (service := terse_authenticator)
              (FromPath "a.txt") terse_world).2
           "a.txt" terse_ticket
           (w_env (open_input (service := terse_authenticator)
                     (FromPath "a.txt") terse_world).2)
           (KeyError "data")).
  - vm_compute. reflexivity.
  - vm_compute. reflexivity.
  - vm_compute. reflexivity.
  - right. exists (VStr "https://upload.example/slot").
    split; vm_compute; reflexivity.
Defined.

Lemma upload_file_phase_B_failure_witness :
  sample_upload 1 =
    (Raise (RequestError 429 "quota"),
     {| w_env := {| disk := sample_disk;
                    streams := [{| s_name := Some "a.txt"; s_reads := 0;
                                   s_closed := false |}];
                    remote := 0 |};
        sent := [ticket_request "a.txt" (resolve_mime None "a.txt");
                 submit_request (VStr "https://upload.example/slot")
                   (VDict {[ "signature" := VStr "s3" ]}) 0] |}).
Proof.
  apply (upload_file_phase_B_failure sample_client (FromPath "a.txt") None None
           (sample_world 1) 0 (open_input (FromPath "a.txt") (sample_world 1)).2
           "a.txt" sample_ticket
           {| disk := sample_disk;
              streams := [{| s_name := Some "a.txt"; s_reads := 0;
                             s_closed := false |}];
              remote := 0 |}
           (VStr "https://upload.example/slot")
           (VDict {[ "signature" := VStr "s3" ]})
           (RequestError 429 "quota")
           {| disk := sample_disk;
              streams := [{| s_name := Some "a.txt"; s_reads := 0;
                             s_closed := false |}];
              remote := 0 |}); vm_compute; reflexivity.
Defined.

Lemma upload_file_missing_path_witness :
  upload_file sample_client (FromPath "gone.txt") (Some "n") (Some "t")
    (sample_world 2) = (Raise (IOError "gone.txt"), sample_world 2).
Proof.
  apply (upload_file_missing_path sample_client "gone.txt" (Some "n") (Some "t")
           (sample_world 2)).
  vm_compute. reflexivity.
Defined.

Lemma upload_file_nameless_witness :
  upload_file sample_client (OpenFile 0) (Some "") None nameless_world =
    (Raise (AttributeError "name"), nameless_world).
Proof.
  apply (upload_file_nameless sample_client 0 (Some "") None nameless_world).
  - vm_compute. reflexivity.
  - right. reflexivity.
Defined.

Lemma upload_file_sends_path_as_name_witness :
  ∃ payload rest,
    sent (upload_file sample_client (FromPath "a.txt") None None (sample_world 2)).2 =
      sent (sample_world 2) ++ with_data UPLOAD_URL "POST" (VDict payload) :: rest ∧
    payload !! "file_name" = Some (VStr "a.txt").
Proof.
  apply (upload_file_sends_path_as_name sample_client "a.txt" None None None
           (sample_world 2)).
  - vm_compute. reflexivity.
  - left. reflexivity.
Defined.

Lemma upload_file_sends_given_name_and_type_witness :
  ∃ rest,
    sent (upload_file sample_client (OpenFile 0) (Some "n.bin") (Some "x/y")
            nameless_world).2 =
      sent nameless_world ++
        with_data UPLOAD_URL "POST"
          (VDict {[ "file_name" := VStr "n.bin"; "file_type" := VStr "x/y" ]}) :: rest.
Proof.
  apply (upload_file_sends_given_name_and_type sample_client (OpenFile 0)
           "n.bin" "x/y" nameless_world 0 nameless_world).
  - reflexivity.
  - discriminate.
  - discriminate.
Defined.

Lemma upload_file_closes_nothing_witness :
  keeps_open (w_env (sample_world_open 2)) (w_env (sample_upload_open 2).2).
Proof.
  apply (upload_file_closes_nothing (service := sample_authenticator)
           sample_client (OpenFile 0) None None (sample_world_open 2)).
  exact sample_send_keeps_open.
Defined.

Lemma upload_file_touches_one_stream_witness :
  streams (w_env (upload_file sample_client (OpenFile 0) None None
                    two_stream_world).2) !! 1 =
  Some {| s_name := Some "b.txt"; s_reads := 0; s_closed := false |}.
Proof.
  apply (upload_file_touches_one_stream (service := sample_authenticator)
           sample_client (OpenFile 0) None None two_stream_world 0
           two_stream_world sample_send_frame eq_refl 1).
  discriminate.
Defined.
